(** * loggy: a fan-out [slog.Handler] and a colourising console writer

    Shallow embedding of the Go package [github.com/ksdfg/loggy]:

    - [utils.go]            [checkLevel]
    - [console.go]          [ConsoleLogWriter], [ConsoleLogWriterOpts],
                            [NewConsoleLogHandler]
    - [combined_handler.go] [CombinedHandler] and its four methods,
                            [NewCombinedHandler]

    The parts of the Go language, of its standard library and of
    [github.com/fatih/color] that the package relies on are modelled in
    the modules [Go], [GoSlice], [GoStrings], [Slog], [IO], [Os] and
    [Color]; the package itself is the module [Loggy]. *)

From Stdlib Require Import ZArith String Ascii List Bool Lia.
From Stdlib Require Import DecimalString.
From stdpp Require Import base list.

Local Open Scope string_scope.
Local Open Scope Z_scope.

(** Go strings are byte sequences; [string] (a list of 8-bit [ascii]) is
    the same data.  Concatenation is written [s1 +++ s2]. *)
Notation "s1 +++ s2" := (String.append s1 s2)
  (at level 60, right associativity) : string_scope.

(* ================================================================= *)
(** ** Package [strings] *)

Module GoStrings.

(** [strings.HasPrefix(s, prefix)]: [s] begins with [prefix]. *)
Fixpoint HasPrefix (s prefix : string) {struct prefix} : bool :=
  match prefix, s with
  | EmptyString, _ => true
  | String _ _, EmptyString => false
  | String c prefix', String d s' =>
      if Ascii.eqb c d then HasPrefix s' prefix' else false
  end.

(** [strings.Index(s, substr)]: index of the first instance of [substr]
    in [s], or [-1] when there is none. *)
Fixpoint Index (s substr : string) : Z :=
  if HasPrefix s substr then 0
  else match s with
       | EmptyString => -1
       | String _ s' =>
           let i := Index s' substr in
           if i <? 0 then -1 else i + 1
       end.

(** [strings.Contains(s, substr)] is [Index(s, substr) >= 0]. *)
Definition Contains (s substr : string) : bool := 0 <=? Index s substr.

(** What "contains the substring" means: [sub] occurs somewhere in [s]. *)
Definition Substring (sub s : string) : Prop :=
  exists pre post : string, s = pre +++ sub +++ post.

End GoStrings.

(* ================================================================= *)
(** ** Go run-time notions shared by the packages below *)

Module Go.

(** A non-nil [error] value, identified by its message; the nil error is
    [None] of [option error]. *)
Definition error : Type := string.

(** [[]byte(s)] and [string(p)]. *)
Definition bytes_of_string (s : string) : list Byte.byte := list_byte_of_string s.
Definition string_of_bytes (p : list Byte.byte) : string := string_of_list_byte p.

(** The double-quote character (code 34) and the line feed (code 10), as
    one-byte strings. *)
Definition dquote : string := String.String "034"%char EmptyString.
Definition newline : string := String.String "010"%char EmptyString.

(** Code that reads and writes a store [St] and always returns. *)
Definition State (St A : Type) : Type := St -> A * St.

Definition sret {St A} (a : A) : State St A := fun st => (a, st).
Definition sbind {St A B} (c : State St A) (k : A -> State St B) : State St B :=
  fun st => let (a, st') := c st in k a st'.

(** Code that may also stop with a run-time panic ([None]). *)
Definition Exec (St A : Type) : Type := St -> option (A * St).

Definition ret {St A} (a : A) : Exec St A := fun st => Some (a, st).
Definition bind {St A B} (c : Exec St A) (k : A -> Exec St B) : Exec St B :=
  fun st => match c st with
            | Some (a, st') => k a st'
            | None => None
            end.
Definition panic {St A} : Exec St A := fun _ => None.

End Go.

Declare Scope state_scope.
Delimit Scope state_scope with state.
Notation "x <- c ;; k" := (Go.sbind c (fun x => k))
  (at level 100, c at next level, right associativity) : state_scope.

Declare Scope exec_scope.
Delimit Scope exec_scope with exec.
Notation "x <- c ;; k" := (Go.bind c (fun x => k))
  (at level 100, c at next level, right associativity) : exec_scope.

(* ================================================================= *)
(** ** Slices

    A slice is a header (array, offset, length, capacity) over a backing
    array that other slices may share.  The memory is the list of the
    arrays allocated so far; an array is addressed by its position. *)

Module GoSlice.

Record slice : Type := {
  ptr : option nat;     (* the backing array; [None] for the nil slice *)
  off : nat;            (* first cell of the slice in that array *)
  len : nat;
  cap : nat
}.

(** The nil slice, zero value of every slice type. *)
Definition nil_slice : slice := {| ptr := None; off := 0; len := 0; cap := 0 |}.

(** The memory of the slices of element type [T]. *)
Abbreviation memory T := (list (list T)).

Section Elements.
Context {T : Type}.

(** The cells a slice shows. *)
Definition elems (m : memory T) (s : slice) : list T :=
  match ptr s with
  | Some a =>
      match m !! a with
      | Some arr => take (len s) (drop (off s) arr)
      | None => []
      end
  | None => []
  end.

Context {W : Type}.

(** [s[i]]; panics when [i] is out of range. *)
Definition index (s : slice) (i : nat) : Go.Exec (memory T * W) T :=
  fun st =>
    if (i <? len s)%nat then
      match ptr s with
      | Some a =>
          match fst st !! a with
          | Some arr =>
              match arr !! (off s + i)%nat with
              | Some v => Some (v, st)
              | None => None
              end
          | None => None
          end
      | None => None
      end
    else None.

(** [s[i] = x]; panics when [i] is out of range. *)
Definition assign (s : slice) (i : nat) (x : T) : Go.Exec (memory T * W) unit :=
  fun st =>
    if (i <? len s)%nat then
      match ptr s with
      | Some a =>
          match fst st !! a with
          | Some arr =>
              if (off s + i <? length arr)%nat
              then Some (tt, (<[ a := <[ (off s + i)%nat := x ]> arr ]> (fst st), snd st))
              else None
          | None => None
          end
      | None => None
      end
    else None.

(** The capacity the run time picks when [append] has to move the slice:
    [growcap oldCap newLen] is its growth policy, which the language
    leaves open; the new array is in any case large enough. *)
Variable growcap : nat -> nat -> nat.
Variable zero : T.

(** [append(s, x)]: with room left the element is stored in place, in
    the array [s] shares; otherwise the elements move, with [x], to a
    newly allocated array. *)
Definition append (s : slice) (x : T) : Go.Exec (memory T * W) slice :=
  fun st =>
    let (m, world) := st in
    if (len s <? cap s)%nat then
      match ptr s with
      | Some a =>
          match m !! a with
          | Some arr =>
              Some ({| ptr := Some a; off := off s; len := S (len s); cap := cap s |},
                    (<[ a := <[ (off s + len s)%nat := x ]> arr ]> m, world))
          | None => None
          end
      | None => None
      end
    else
      let newcap := Nat.max (S (len s)) (growcap (cap s) (S (len s))) in
      let arr := (elems m s ++ x :: replicate (newcap - S (len s)) zero)%list in
      Some ({| ptr := Some (length m); off := 0; len := S (len s); cap := newcap |},
            ((m ++ [arr])%list, world)).

(** The slice a call passes for its variadic parameter: nil when no
    argument is given, else a new array holding the arguments. *)
Definition variadic (args : list T) : Go.Exec (memory T * W) slice :=
  fun st =>
    let (m, world) := st in
    match args with
    | [] => Some (nil_slice, st)
    | _ :: _ =>
        Some ({| ptr := Some (length m); off := 0;
                 len := length args; cap := length args |},
              ((m ++ [args])%list, world))
    end.

(** [for _, x := range s { body }], where the body either goes on to the
    next element with updated local variables ([inl]) or returns from the
    enclosing function ([inr]).  The header [s] is read once, the
    elements one by one. *)
Fixpoint for_range_from {A R : Type} (s : slice) (i n : nat)
    (body : A -> T -> Go.Exec (memory T * W) (A + R)) (acc : A)
  : Go.Exec (memory T * W) (A + R) :=
  match n with
  | O => Go.ret (inl acc)
  | S n' =>
      (x <- index s i ;;
       c <- body acc x ;;
       match c with
       | inl acc' => for_range_from s (S i) n' body acc'
       | inr r => Go.ret (inr r)
       end)%exec
  end.

Definition for_range {A R : Type} (s : slice)
    (body : A -> T -> Go.Exec (memory T * W) (A + R)) (acc : A)
  : Go.Exec (memory T * W) (A + R) :=
  for_range_from s 0 (len s) body acc.

End Elements.

End GoSlice.

(* ================================================================= *)
(** ** Package [log/slog]: levels *)

Module Slog.

(** [type Level int].  The differences [String] takes cannot leave the
    range of [int] (a negative level plus 4, a level of at least 8 minus
    8, and so on), so that the integers are left unbounded. *)
Definition Level : Type := Z.

Definition LevelDebug : Level := -4.
Definition LevelInfo  : Level := 0.
Definition LevelWarn  : Level := 4.
Definition LevelError : Level := 8.

(** The verb [%+d] of [fmt]: a decimal number that always carries its
    sign. *)
Definition fmt_plus_d (val : Z) : string :=
  match val with
  | Z0 => "+0"
  | Zpos p => "+" +++ NilZero.string_of_uint (Pos.to_uint p)
  | Zneg p => "-" +++ NilZero.string_of_uint (Pos.to_uint p)
  end.

(** The local closure [str] of [Level.String]. *)
Definition str (base : string) (val : Level) : string :=
  if val =? 0 then base else base +++ fmt_plus_d val.

(** [func (l Level) String() string]: the name of the level; a level
    between two named ones is printed as the lower name and an offset,
    [(LevelInfo+2).String()] is [INFO+2]. *)
Definition String (l : Level) : string :=
  if l <? LevelInfo then str "DEBUG" (l - LevelDebug)
  else if l <? LevelWarn then str "INFO" (l - LevelInfo)
  else if l <? LevelError then str "WARN" (l - LevelWarn)
  else str "ERROR" (l - LevelError).

(** [context.Context]: the values it carries.  Handlers only pass it on. *)
Definition Context : Type := list (string * string).

(** [slog.Value], reduced to three of its kinds. *)
Inductive Value : Type :=
| StringValue (s : string)
| Int64Value (i : Z)
| BoolValue (b : bool).

(** [type Attr struct { Key string; Value Value }] *)
Record Attr : Type := { Key : string; Value_ : Value }.

(** [type Record struct]: time, message, level, program counter and the
    attributes of one log event. *)
Record Record_ : Type := {
  Time : Z;
  Message : string;
  Level_ : Level;
  PC : Z;
  attrs : list Attr
}.

(** [type HandlerOptions struct].  [Level_opt] is the [Leveler] interface
    (nil when unset), [ReplaceAttr] a function value (nil when unset). *)
Record HandlerOptions : Type := {
  AddSource : bool;
  Level_opt : option Level;
  ReplaceAttr : option (list string -> Attr -> Attr)
}.

(** The zero value [HandlerOptions{}]. *)
Definition zero_HandlerOptions : HandlerOptions :=
  {| AddSource := false; Level_opt := None; ReplaceAttr := None |}.

(** [type Handler interface], implemented by a type [H] whose methods
    run against a store [W]. *)
Class Handler (W H : Type) : Type := {
  Enabled : H -> Context -> Level -> Go.State W bool;
  Handle : H -> Context -> Record_ -> Go.State W (option Go.error);
  WithAttrs : H -> list Attr -> Go.State W H;
  WithGroup : H -> string -> Go.State W H
}.

(** The state shared by the two built-in handlers: the rendering
    ([json] or text), the options and the writer the lines go to. *)
Record commonHandler (Wr : Type) : Type := {
  json : bool;
  opts : HandlerOptions;
  w : Wr
}.
Arguments json {Wr} _.
Arguments opts {Wr} _.
Arguments w {Wr} _.

(** The built-in handlers [*JSONHandler] and [*TextHandler]. *)
Inductive BuiltinHandler (Wr : Type) : Type :=
| JSONHandler (c : commonHandler Wr)
| TextHandler (c : commonHandler Wr).
Arguments JSONHandler {Wr} _.
Arguments TextHandler {Wr} _.

(** A nil [*HandlerOptions] stands for the zero value. *)
Definition deref_opts (o : option HandlerOptions) : HandlerOptions :=
  match o with
  | Some x => x
  | None => zero_HandlerOptions
  end.

(** [func NewJSONHandler(w io.Writer, opts *HandlerOptions) *JSONHandler] *)
Definition NewJSONHandler {Wr} (wr : Wr) (o : option HandlerOptions)
  : BuiltinHandler Wr :=
  JSONHandler {| json := true; opts := deref_opts o; w := wr |}.

(** [func NewTextHandler(w io.Writer, opts *HandlerOptions) *TextHandler] *)
Definition NewTextHandler {Wr} (wr : Wr) (o : option HandlerOptions)
  : BuiltinHandler Wr :=
  TextHandler {| json := false; opts := deref_opts o; w := wr |}.

End Slog.

(* ================================================================= *)
(** ** Packages [io], [fmt] and [os] *)

Module IO.

(** [type Writer interface { Write(p []byte) (n int, err error) }],
    implemented by a stream type [S] over a store [W]. *)
Class Writer (W S : Type) : Type :=
  Write : S -> list Byte.byte -> Go.State W (Z * option Go.error).

(** [fmt.Fprint(w, a)] for one string operand: the text is handed to the
    writer in a single [Write], whose results are returned. *)
Definition Fprint {W S} `{Writer W S} (wr : S) (a : string)
  : Go.State W (Z * option Go.error) :=
  Write wr (Go.bytes_of_string a).

End IO.

Module Os.

(** [*os.File], identified by its descriptor. *)
Definition File : Type := nat.

(** The package variables [os.Stdout] and [os.Stderr]. *)
Record Vars : Type := { Stdout : File; Stderr : File }.

(** What the operating system holds for a descriptor: the bytes written
    so far and whether it has been closed. *)
Record FileState : Type := { written : string; closed : bool }.

Definition ErrClosed : Go.error := "file already closed".

(** [func (f *File) Write(b []byte) (n int, err error)] on a table of
    open files. *)
Definition File_Write (f : File) (b : list Byte.byte)
  : Go.State (list FileState) (Z * option Go.error) :=
  fun files =>
    match files !! f with
    | Some st =>
        if closed st then ((0, Some ErrClosed), files)
        else ((Z.of_nat (length b), None),
              <[ f := {| written := written st +++ Go.string_of_bytes b;
                         closed := false |} ]> files)
    | None => ((0, Some ErrClosed), files)
    end.

#[global] Instance File_Writer : IO.Writer (list FileState) File := File_Write.

End Os.

(* ================================================================= *)
(** ** Package [github.com/fatih/color]

    The part used by [loggy]: [New] and [Color.Fprint].  The library is
    modelled with colour output switched on. *)

Module Color.

(** [type Attribute int]: SGR parameters. *)
Definition Attribute : Type := Z.

Definition Reset    : Attribute := 0.
Definition FgRed    : Attribute := 31.
Definition FgYellow : Attribute := 33.
Definition FgBlue   : Attribute := 34.

(** [type Color struct { params []Attribute ... }] *)
Record Color_ : Type := { params : list Attribute }.

(** [func New(value ...Attribute) *Color] *)
Definition New (value : list Attribute) : Color_ := {| params := value |}.

(** The escape character, code 27. *)
Definition escape : string := String.String "027"%char EmptyString.

(** [strconv.Itoa] *)
Definition Itoa (i : Z) : string := NilZero.string_of_int (Z.to_int i).

(** [Color.sequence]: the parameters joined by semicolons. *)
Fixpoint join_params (l : list Attribute) : string :=
  match l with
  | [] => ""
  | [a] => Itoa a
  | a :: rest => Itoa a +++ ";" +++ join_params rest
  end.

Definition sequence (c : Color_) : string := join_params (params c).

(** [Color.format]: the sequence that switches the colour on, and the
    one [UnsetWriter] prints to switch it off. *)
Definition format (c : Color_) : string := escape +++ "[" +++ sequence c +++ "m".
Definition unformat : string := escape +++ "[" +++ Itoa Reset +++ "m".

Section Printing.
Context {W S : Type} `{IO.Writer W S}.

(** [Color.SetWriter]: result of the print dropped. *)
Definition SetWriter (c : Color_) (wr : S) : Go.State W unit :=
  (_ <- IO.Fprint wr (format c) ;; Go.sret tt)%state.

(** [Color.UnsetWriter] *)
Definition UnsetWriter (c : Color_) (wr : S) : Go.State W unit :=
  (_ <- IO.Fprint wr unformat ;; Go.sret tt)%state.

(** [func (c *Color) Fprint(w io.Writer, a ...interface{}) (n int, err error)]:
    [c.SetWriter(w); defer c.UnsetWriter(w); return fmt.Fprint(w, a...)];
    the results are those of the middle print. *)
Definition Fprint (c : Color_) (wr : S) (a : string)
  : Go.State W (Z * option Go.error) :=
  (_ <- SetWriter c wr ;;
   r <- IO.Fprint wr a ;;
   _ <- UnsetWriter c wr ;;
   Go.sret r)%state.

End Printing.

End Color.

(* ================================================================= *)
(** ** Package [loggy], [utils.go] *)

Module Loggy.

(** [fmt.Sprintf] of the format [level=%s]. *)
Definition text_marker (name : string) : string := "level=" +++ name.

(** [fmt.Sprintf] of the format made of: quote, [level], quote, colon,
    quote, [%s], quote. *)
Definition json_marker (name : string) : string :=
  Go.dquote +++ "level" +++ Go.dquote +++ ":" +++ Go.dquote +++ name +++ Go.dquote.

(** [func checkLevel(log string, level slog.Level) bool] *)
Definition checkLevel (log : string) (level : Slog.Level) : bool :=
  GoStrings.Contains log (text_marker (Slog.String level))
  || GoStrings.Contains log (json_marker (Slog.String level)).

(* ----------------------------------------------------------------- *)
(** *** [console.go] *)

(** [type ConsoleLogWriter struct { outputStream io.Writer }] *)
Record ConsoleLogWriter (S : Type) : Type := { outputStream : S }.
Arguments outputStream {S} _.

(** [func (w ConsoleLogWriter) Write(p []byte) (n int, err error)] *)
Definition ConsoleLogWriter_Write {W S} `{IO.Writer W S}
    (w : ConsoleLogWriter S) (p : list Byte.byte)
  : Go.State W (Z * option Go.error) :=
  let log := Go.string_of_bytes p in
  if checkLevel log Slog.LevelError then
    Color.Fprint (Color.New [Color.FgRed]) (outputStream w) log
  else if checkLevel log Slog.LevelWarn then
    Color.Fprint (Color.New [Color.FgYellow]) (outputStream w) log
  else if checkLevel log Slog.LevelInfo then
    Color.Fprint (Color.New [Color.FgBlue]) (outputStream w) log
  else
    IO.Write (outputStream w) (Go.bytes_of_string log).

#[global] Instance ConsoleLogWriter_Writer {W S} `{IO.Writer W S}
  : IO.Writer W (ConsoleLogWriter S) := ConsoleLogWriter_Write.

(** [type ConsoleLogWriterOpts struct] *)
Record ConsoleLogWriterOpts : Type := {
  JSON : bool;
  LogToStdout : bool;
  HandlerOptions : Slog.HandlerOptions
}.

(** The zero value of [ConsoleLogWriterOpts] ([var opts ConsoleLogWriterOpts]). *)
Definition zero_ConsoleLogWriterOpts : ConsoleLogWriterOpts :=
  {| JSON := false; LogToStdout := false;
     HandlerOptions := Slog.zero_HandlerOptions |}.

(** [func NewConsoleLogHandler(options ...ConsoleLogWriterOpts) slog.Handler];
    [os] holds the current values of [os.Stdout] and [os.Stderr]. *)
Definition NewConsoleLogHandler (os : Os.Vars) (options : list ConsoleLogWriterOpts)
  : Slog.BuiltinHandler (ConsoleLogWriter Os.File) :=
  let opts :=
    match options with
    | o :: _ => o            (* len(options) > 0: options[0] *)
    | [] => zero_ConsoleLogWriterOpts
    end in
  let outputStream :=
    if LogToStdout opts then Os.Stdout os else Os.Stderr os in
  let writer := {| outputStream := outputStream |} in
  if JSON opts then Slog.NewJSONHandler writer (Some (HandlerOptions opts))
  else Slog.NewTextHandler writer (Some (HandlerOptions opts)).

(* ----------------------------------------------------------------- *)
(** *** [combined_handler.go] *)

(** [type CombinedHandler struct { handlers []slog.Handler }] *)
Record CombinedHandler : Type := { handlers : GoSlice.slice }.

Section CombinedHandler.
Context {W H : Type}.

(** A value of the interface type [slog.Handler]: a handler of the
    implementing type [H], or nil. *)
Local Abbreviation iface := (option H).

(** The store: the arrays of handler slices and the store of the children. *)
Local Abbreviation store := (GoSlice.memory iface * W)%type.

Context {I : Slog.Handler W H}.
Variable growcap : nat -> nat -> nat.

(** A method call on an interface value; on nil it panics. *)
Definition call {A : Type} (method : H -> Go.State W A) (handler : iface)
  : Go.Exec store A :=
  match handler with
  | Some h => fun st =>
      let (a, world) := method h (snd st) in Some (a, (fst st, world))
  | None => Go.panic
  end.

(** [func (h CombinedHandler) Enabled(ctx context.Context, level slog.Level) (enabled bool)] *)
Definition CombinedHandler_Enabled (h : CombinedHandler)
    (ctx : Slog.Context) (level : Slog.Level) : Go.Exec store bool :=
  (c <- GoSlice.for_range (handlers h)
         (fun (_ : unit) handler =>
            b <- call (fun x => Slog.Enabled x ctx level) handler ;;
            if b then Go.ret (inr true)
            else Go.ret (inl tt))
         tt ;;
   match c with
   | inr enabled => Go.ret enabled
   | inl _ => Go.ret false
   end)%exec.

(** [func (h CombinedHandler) Handle(ctx context.Context, record slog.Record) error] *)
Definition CombinedHandler_Handle (h : CombinedHandler)
    (ctx : Slog.Context) (record : Slog.Record_)
  : Go.Exec store (option Go.error) :=
  (c <- GoSlice.for_range (handlers h)
         (fun (_ : unit) handler =>
            en <- call (fun x => Slog.Enabled x ctx (Slog.Level_ record)) handler ;;
            if negb en then Go.ret (inl tt)             (* continue *)
            else
              err <- call (fun x => Slog.Handle x ctx record) handler ;;
              match err with
              | Some e => Go.ret (inr (Some e))         (* return err *)
              | None => Go.ret (inl tt)
              end)
         tt ;;
   match c with
   | inr err => Go.ret err
   | inl _ => Go.ret None
   end)%exec.

(** [func (h CombinedHandler) WithAttrs(attrs []slog.Attr) slog.Handler] *)
Definition CombinedHandler_WithAttrs (h : CombinedHandler)
    (attrs : list Slog.Attr) : Go.Exec store CombinedHandler :=
  if (length attrs =? 0)%nat then Go.ret h
  else
    let newHandler := {| handlers := GoSlice.nil_slice |} in
    (c <- GoSlice.for_range (handlers h)
           (fun (newHandler : CombinedHandler) handler =>
              x <- call (fun x => Slog.WithAttrs x attrs) handler ;;
              s <- GoSlice.append growcap None (handlers newHandler) (Some x) ;;
              Go.ret (inl {| handlers := s |}))
           newHandler ;;
     match c with
     | inl newHandler => Go.ret newHandler
     | inr r => match r : Empty_set with end     (* the loop has no return *)
     end)%exec.

(** [func (h CombinedHandler) WithGroup(name string) slog.Handler] *)
Definition CombinedHandler_WithGroup (h : CombinedHandler)
    (name : string) : Go.Exec store CombinedHandler :=
  if String.eqb name "" then Go.ret h
  else
    let newHandler := {| handlers := GoSlice.nil_slice |} in
    (c <- GoSlice.for_range (handlers h)
           (fun (newHandler : CombinedHandler) handler =>
              x <- call (fun x => Slog.WithGroup x name) handler ;;
              s <- GoSlice.append growcap None (handlers newHandler) (Some x) ;;
              Go.ret (inl {| handlers := s |}))
           newHandler ;;
     match c with
     | inl newHandler => Go.ret newHandler
     | inr r => match r : Empty_set with end     (* the loop has no return *)
     end)%exec.

End CombinedHandler.

Arguments call : simpl never.

(** [func NewCombinedHandler(handlers ...slog.Handler) slog.Handler] *)
Definition NewCombinedHandler (handlers : GoSlice.slice) : CombinedHandler :=
  {| handlers := handlers |}.

(* ----------------------------------------------------------------- *)
(** *** The earlier writer, bound to standard error *)

(** [type StderrLogWriter struct { channel chan []byte }]; a channel is
    identified by a number, the nil channel is [None]. *)
Record StderrLogWriter : Type := { channel : option nat }.

(** [func (w StderrLogWriter) Write(p []byte) (n int, err error)]: every
    branch prints to [os.Stderr], read from the package variable when
    the call is made. *)
Definition StderrLogWriter_Write (os : Os.Vars) (w : StderrLogWriter)
    (p : list Byte.byte) : Go.State (list Os.FileState) (Z * option Go.error) :=
  let log := Go.string_of_bytes p in
  if checkLevel log Slog.LevelError then
    Color.Fprint (Color.New [Color.FgRed]) (Os.Stderr os) log
  else if checkLevel log Slog.LevelWarn then
    Color.Fprint (Color.New [Color.FgYellow]) (Os.Stderr os) log
  else if checkLevel log Slog.LevelInfo then
    Color.Fprint (Color.New [Color.FgBlue]) (Os.Stderr os) log
  else
    IO.Write (Os.Stderr os) (Go.bytes_of_string log).

(** [type StderrLogWriterOpts struct] *)
Record StderrLogWriterOpts : Type := {
  Stderr_JSON : bool;
  Stderr_HandlerOptions : Slog.HandlerOptions
}.

Definition zero_StderrLogWriterOpts : StderrLogWriterOpts :=
  {| Stderr_JSON := false; Stderr_HandlerOptions := Slog.zero_HandlerOptions |}.

(** [func NewStderrLogHandler(options ...StderrLogWriterOpts) slog.Handler] *)
Definition NewStderrLogHandler (options : list StderrLogWriterOpts)
  : Slog.BuiltinHandler StderrLogWriter :=
  let opts :=
    match options with
    | o :: _ => o
    | [] => zero_StderrLogWriterOpts
    end in
  let writer := {| channel := None |} in
  if Stderr_JSON opts
  then Slog.NewJSONHandler writer (Some (Stderr_HandlerOptions opts))
  else Slog.NewTextHandler writer (Some (Stderr_HandlerOptions opts)).

End Loggy.

(* ================================================================= *)
(** * Notions used to state the properties *)

(** ** The lines the built-in handlers render

    With the time attribute removed, as in [console_test.go], a record
    is rendered by the text handler as [level=NAME msg=MSG] and a line
    feed, and by the JSON handler as an object with the members [level]
    and [msg].  [msg] is the message as the handler prints it. *)

Module Rendered.

Definition quoted (s : string) : string := Go.dquote +++ s +++ Go.dquote.

Definition TextLine (l : Slog.Level) (msg : string) : string :=
  "level=" +++ Slog.String l +++ " msg=" +++ msg +++ Go.newline.

Definition JSONLine (l : Slog.Level) (msg : string) : string :=
  "{" +++ quoted "level" +++ ":" +++ quoted (Slog.String l) +++ ","
      +++ quoted "msg" +++ ":" +++ quoted msg +++ "}" +++ Go.newline.

(** A line carries a marker that [ConsoleLogWriter] colours. *)
Definition colourable (line : string) : Prop :=
  exists name : string,
    (name = "ERROR" \/ name = "WARN" \/ name = "INFO") /\
    (GoStrings.Substring (Loggy.text_marker name) line \/
     GoStrings.Substring (Loggy.json_marker name) line).

(** The named level at or below a level: the one whose name [String]
    prints, with an offset when the two differ. *)
Definition named_below (l : Slog.Level) : Slog.Level :=
  if l <? Slog.LevelInfo then Slog.LevelDebug
  else if l <? Slog.LevelWarn then Slog.LevelInfo
  else if l <? Slog.LevelError then Slog.LevelWarn
  else Slog.LevelError.

(** What [ConsoleLogWriter] puts on the stream for a line. *)
Definition in_colour (code : string) (line : string) : string :=
  Color.escape +++ "[" +++ code +++ "m" +++ line +++ Color.escape +++ "[0m".

Definition coloured_form (line : string) : string :=
  if Loggy.checkLevel line Slog.LevelError then in_colour "31" line
  else if Loggy.checkLevel line Slog.LevelWarn then in_colour "33" line
  else if Loggy.checkLevel line Slog.LevelInfo then in_colour "34" line
  else line.

Section Wrapped.
Context {W S : Type} `{IO.Writer W S}.

(** The line between the escape sequence of colour [code] and the reset
    sequence: three writes to the stream, of which the middle one gives
    the results. *)
Definition wrapped (stream : S) (code : string) (p : list Byte.byte)
  : Go.State W (Z * option Go.error) :=
  fun world =>
    let (_, w1) := IO.Write stream
                     (Go.bytes_of_string (Color.escape +++ "[" +++ code +++ "m")) world in
    let (r, w2) := IO.Write stream p w1 in
    let (_, w3) := IO.Write stream
                     (Go.bytes_of_string (Color.escape +++ "[0m")) w2 in
    (r, w3).

End Wrapped.

End Rendered.

(** ** Observing the calls made on child handlers *)

Module Trace.

(** One call on a child, with its arguments and what it returned. *)
Inductive Call (H : Type) : Type :=
| CallEnabled (h : H) (ctx : Slog.Context) (level : Slog.Level) (enabled : bool)
| CallHandle (h : H) (ctx : Slog.Context) (record : Slog.Record_) (err : option Go.error)
| CallWithAttrs (h : H) (attrs : list Slog.Attr) (result : H)
| CallWithGroup (h : H) (name : string) (result : H).
Arguments CallEnabled {H} _ _ _ _.
Arguments CallHandle {H} _ _ _ _.
Arguments CallWithAttrs {H} _ _ _.
Arguments CallWithGroup {H} _ _ _.

Section Probe.
Context {W H : Type} (I : Slog.Handler W H).

(** The children [I], with every call appended to a log kept next to
    their store. *)
Definition probe : Slog.Handler (W * list (Call H)) H := {|
  Slog.Enabled h ctx level := fun st =>
    let (b, world) := Slog.Enabled h ctx level (fst st) in
    (b, (world, (snd st ++ [CallEnabled h ctx level b])%list));
  Slog.Handle h ctx record := fun st =>
    let (e, world) := Slog.Handle h ctx record (fst st) in
    (e, (world, (snd st ++ [CallHandle h ctx record e])%list));
  Slog.WithAttrs h attrs := fun st =>
    let (h', world) := Slog.WithAttrs h attrs (fst st) in
    (h', (world, (snd st ++ [CallWithAttrs h attrs h'])%list));
  Slog.WithGroup h name := fun st =>
    let (h', world) := Slog.WithGroup h name (fst st) in
    (h', (world, (snd st ++ [CallWithGroup h name h'])%list))
|}.

End Probe.

Section Shapes.
Context {H : Type}.

(** The slice [s] shows, in memory [m], exactly the non-nil handlers [hs]. *)
Definition holds (m : GoSlice.memory (option H)) (s : GoSlice.slice)
    (hs : list H) : Prop :=
  GoSlice.elems m s = map Some hs /\ GoSlice.len s = length hs.

(** The calls of a dispatch of [record] that went through all of [hs]
    without an error: per child, in order, either its [Enabled] alone,
    answering false, or its [Enabled], answering true, and then its
    [Handle], returning nil. *)
Inductive dispatched (ctx : Slog.Context) (record : Slog.Record_)
  : list H -> list (Call H) -> Prop :=
| dispatched_nil : dispatched ctx record [] []
| dispatched_skip c hs calls :
    dispatched ctx record hs calls ->
    dispatched ctx record (c :: hs)
      (CallEnabled c ctx (Slog.Level_ record) false :: calls)
| dispatched_ok c hs calls :
    dispatched ctx record hs calls ->
    dispatched ctx record (c :: hs)
      (CallEnabled c ctx (Slog.Level_ record) true
       :: CallHandle c ctx record None :: calls).

(** The calls of a round of [Enabled] in which every child of [hs]
    answered false. *)
Definition refusals (ctx : Slog.Context) (level : Slog.Level) (hs : list H)
  : list (Call H) :=
  map (fun c => CallEnabled c ctx level false) hs.

(** The loop of [for_range] over elements listed beforehand. *)
Fixpoint loop_list {St A R : Type} (body : A -> option H -> Go.Exec St (A + R))
    (xs : list (option H)) (acc : A) : Go.Exec St (A + R) :=
  match xs with
  | [] => Go.ret (inl acc)
  | x :: xs' =>
      (c <- body acc x ;;
       match c with
       | inl acc' => loop_list body xs' acc'
       | inr r => Go.ret (inr r)
       end)%exec
  end.

(** The three loops of [CombinedHandler] over a list of children, without
    the memory: the answer of the first child that is enabled, ... *)
Section Children.
Context {W : Type} {I : Slog.Handler W H}.

Fixpoint enabled_children (ctx : Slog.Context) (level : Slog.Level)
    (hs : list H) : Go.State W bool :=
  match hs with
  | [] => Go.sret false
  | c :: rest => fun world =>
      let (b, world') := Slog.Enabled c ctx level world in
      if b then (true, world') else enabled_children ctx level rest world'
  end.

(** ... the dispatch of a record up to the first error, ... *)
Fixpoint handle_children (ctx : Slog.Context) (record : Slog.Record_)
    (hs : list H) : Go.State W (option Go.error) :=
  match hs with
  | [] => Go.sret None
  | c :: rest => fun world =>
      let (en, world1) := Slog.Enabled c ctx (Slog.Level_ record) world in
      if negb en then handle_children ctx record rest world1
      else
        let (err, world2) := Slog.Handle c ctx record world1 in
        match err with
        | Some e => (Some e, world2)
        | None => handle_children ctx record rest world2
        end
  end.

(** The record handed to each child of a list in turn, up to the first
    error. *)
Fixpoint deliver (ctx : Slog.Context) (record : Slog.Record_)
    (cs : list H) : Go.State W (option Go.error) :=
  match cs with
  | [] => Go.sret None
  | c :: rest => fun world =>
      let (err, world') := Slog.Handle c ctx record world in
      match err with
      | Some e => (Some e, world')
      | None => deliver ctx record rest world'
      end
  end.

(** ... and the children derived by one method, called child by child. *)
Fixpoint derive_children (method : H -> Go.State W H) (hs : list H)
  : Go.State W (list H) :=
  match hs with
  | [] => Go.sret []
  | c :: rest => fun world =>
      let (c', world1) := method c world in
      let (rest', world2) := derive_children method rest world1 in
      (c' :: rest', world2)
  end.

End Children.

(** A slice built by appending to the nil slice after the memory had [k]
    arrays: nil, or the whole of an array allocated since. *)
Definition owned (k : nat) (m : GoSlice.memory (option H)) (s : GoSlice.slice)
  : Prop :=
  match GoSlice.ptr s with
  | None => GoSlice.len s = 0%nat /\ GoSlice.cap s = 0%nat
  | Some a =>
      (k <= a)%nat /\ GoSlice.off s = 0%nat /\ (GoSlice.len s <= GoSlice.cap s)%nat /\
      exists arr, m !! a = Some arr /\ length arr = GoSlice.cap s
  end.

(** The body of the loop of [WithAttrs] and of [WithGroup], for the
    method [method] called on each child. *)
Definition derive_body {W : Type} (growcap : nat -> nat -> nat)
    (method : H -> Go.State W H)
  : Loggy.CombinedHandler -> option H ->
    Go.Exec (GoSlice.memory (option H) * W)
            (Loggy.CombinedHandler + Empty_set) :=
  fun newHandler handler =>
    (x <- Loggy.call method handler ;;
     s <- GoSlice.append growcap None (Loggy.handlers newHandler) (Some x) ;;
     Go.ret (inl {| Loggy.handlers := s |}))%exec.

(** The outcome [result] of [WithAttrs] or [WithGroup] on the receiver
    [h], whose slice showed [hs] in memory [m]: a handler whose slice
    shows [hs'] and lies in an array allocated by the call (or is nil), in
    a memory that still has all of [m] and in which the slice of the
    receiver still shows [hs]; [world'] is the store of the children
    afterwards. *)
Definition derived {W : Type} (m : GoSlice.memory (option H))
    (h : Loggy.CombinedHandler) (hs : list H)
    (result : option (Loggy.CombinedHandler * (GoSlice.memory (option H) * W)))
    (hs' : list H) (world' : W) : Prop :=
  exists (h' : Loggy.CombinedHandler) (ext : GoSlice.memory (option H)),
    result = Some (h', ((m ++ ext)%list, world')) /\
    holds (m ++ ext)%list (Loggy.handlers h') hs' /\
    owned (length m) (m ++ ext)%list (Loggy.handlers h') /\
    holds (m ++ ext)%list (Loggy.handlers h) hs.

End Shapes.

End Trace.

(** ** A child handler for the examples

    A handler with a minimum level, as the built-in ones have, that
    records the messages it accepts in a list, or fails with a fixed
    error. *)

Module Sink.

Record Sink : Type := {
  name : string;
  threshold : Slog.Level;
  failure : option Go.error;
  bound : list Slog.Attr;
  groups : list string
}.

#[global] Instance Sink_Handler : Slog.Handler (list string) Sink := {|
  Slog.Enabled s _ level := Go.sret (threshold s <=? level);
  Slog.Handle s _ record := fun delivered =>
    match failure s with
    | Some e => (Some e, delivered)
    | None => (None, (delivered ++ [name s +++ ": " +++ Slog.Message record])%list)
    end;
  Slog.WithAttrs s attrs :=
    Go.sret {| name := name s; threshold := threshold s; failure := failure s;
               bound := (bound s ++ attrs)%list; groups := groups s |};
  Slog.WithGroup s g :=
    Go.sret {| name := name s; threshold := threshold s; failure := failure s;
               bound := bound s; groups := (groups s ++ [g])%list |}
|}.

Definition mk (n : string) (l : Slog.Level) (f : option Go.error) : Sink :=
  {| name := n; threshold := l; failure := f; bound := []; groups := [] |}.

Definition info : Sink := mk "info" Slog.LevelInfo None.
Definition warn : Sink := mk "warn" Slog.LevelWarn None.
Definition error : Sink := mk "error" Slog.LevelError None.
Definition healthy : Sink := mk "healthy" Slog.LevelDebug None.
Definition broken : Sink := mk "broken" Slog.LevelDebug (Some "write failed").

(** The handler [NewCombinedHandler(args...)] made in an empty memory,
    and that memory afterwards. *)
Definition combined (args : list Sink) : Loggy.CombinedHandler :=
  Loggy.NewCombinedHandler
    {| GoSlice.ptr := Some 0%nat; GoSlice.off := 0;
       GoSlice.len := length args; GoSlice.cap := length args |}.
Definition memory_of (args : list Sink) : GoSlice.memory (option Sink) :=
  [map Some args].

(** A record of a given level, and a growth policy: doubling. *)
Definition record_at (l : Slog.Level) (msg : string) : Slog.Record_ :=
  {| Slog.Time := 0; Slog.Message := msg; Slog.Level_ := l; Slog.PC := 0;
     Slog.attrs := [] |}.
Definition doubling (oldCap newLen : nat) : nat := (2 * oldCap)%nat.

End Sink.

(* ================================================================= *)
(** * Properties *)

Module GoStringsFacts.
Import GoStrings.

Lemma append_assoc (a b c : string) : (a +++ b) +++ c = a +++ b +++ c.
Proof. induction a as [|x a IH]; simpl; [reflexivity | now rewrite IH]. Qed.

Lemma HasPrefix_spec (s prefix : string) :
  HasPrefix s prefix = true <-> exists post, s = prefix +++ post.
Proof.
  revert s. induction prefix as [|c prefix IH]; intros s; simpl.
  - split; [intros _; now exists s | reflexivity].
  - destruct s as [|d s].
    + split; [discriminate | intros [post H]; discriminate].
    + destruct (Ascii.eqb_spec c d) as [->|Hne].
      * rewrite IH. split; intros [post H]; exists post.
        -- now rewrite H.
        -- now injection H.
      * split; [discriminate | intros [post H]; injection H; congruence].
Qed.

Lemma Index_lower (s substr : string) : -1 <= Index s substr.
Proof.
  induction s as [|c s IH]; simpl.
  - destruct (HasPrefix "" substr); lia.
  - destruct (HasPrefix (String.String c s) substr); [lia|].
    destruct (Z.ltb_spec (Index s substr) 0); lia.
Qed.

Lemma Contains_cons (c : ascii) (s substr : string) :
  Contains (String.String c s) substr
  = HasPrefix (String.String c s) substr || Contains s substr.
Proof.
  unfold Contains. simpl Index.
  destruct (HasPrefix (String.String c s) substr); [reflexivity|].
  pose proof (Index_lower s substr).
  destruct (Z.ltb_spec (Index s substr) 0);
    destruct (Z.leb_spec 0 (Index s substr)); simpl; try lia;
    symmetry; first [apply Z.leb_le | apply Z.leb_gt]; lia.
Qed.

Lemma Contains_nil (substr : string) :
  Contains "" substr = HasPrefix "" substr.
Proof. unfold Contains. simpl. now destruct (HasPrefix "" substr). Qed.

(** [strings.Contains] decides [Substring]. *)
Lemma Contains_spec (s substr : string) :
  Contains s substr = true <-> Substring substr s.
Proof.
  unfold Substring. induction s as [|c s IH].
  - rewrite Contains_nil, HasPrefix_spec. split.
    + intros [post H]. now exists "", post.
    + intros [[|x pre] [post H]]; [now exists post | discriminate].
  - rewrite Contains_cons, orb_true_iff, HasPrefix_spec, IH. split.
    + intros [[post H] | [pre [post H]]].
      * now exists "", post.
      * exists (String.String c pre), post. simpl. now rewrite H.
    + intros [[|x pre] [post H]].
      * left. now exists post.
      * right. injection H as _ H. now exists pre, post.
Qed.

End GoStringsFacts.

(* ================================================================= *)
(** ** [utils.go] and [console.go] *)

Module ConsoleFacts.
Import GoStrings GoStringsFacts Loggy Rendered.

Lemma bytes_roundtrip (p : list Byte.byte) :
  Go.bytes_of_string (Go.string_of_bytes p) = p.
Proof. apply list_byte_of_string_of_list_byte. Qed.

(** The markers of a named level are the two literal strings. *)
Lemma text_marker_value (name : string) : text_marker name = "level=" +++ name.
Proof. reflexivity. Qed.

(** C3.  For every line and every level, [checkLevel] answers true exactly
    when the line contains the substring [level=NAME] or the substring
    made of [level] between quotes, a colon and [NAME] between quotes,
    where [NAME] is the textual name of the level; for the four named
    levels that name is DEBUG, INFO, WARN and ERROR.  The test is a plain
    substring search. *)
Theorem checkLevel_is_substring_search :
  (Slog.String Slog.LevelDebug = "DEBUG" /\
   Slog.String Slog.LevelInfo = "INFO" /\
   Slog.String Slog.LevelWarn = "WARN" /\
   Slog.String Slog.LevelError = "ERROR") /\
  forall (log : string) (level : Slog.Level),
    checkLevel log level = true <->
    Substring ("level=" +++ Slog.String level) log \/
    Substring (Go.dquote +++ "level" +++ Go.dquote +++ ":" +++
               Go.dquote +++ Slog.String level +++ Go.dquote) log.
Proof.
  split; [repeat split |].
  intros log level. unfold checkLevel.
  rewrite orb_true_iff, !Contains_spec. reflexivity.
Qed.

Section Write.
Context {W S : Type} `{IO.Writer W S}.

Lemma Fprint_wrapped (a : Color.Attribute) (code : string) (stream : S)
    (p : list Byte.byte) (world : W) :
  Color.Itoa a = code ->
  Color.Fprint (Color.New [a]) stream (Go.string_of_bytes p) world
  = wrapped stream code p world.
Proof.
  intros <-. unfold Color.Fprint, Color.SetWriter, Color.UnsetWriter, IO.Fprint,
    wrapped, Go.sbind, Go.sret, Color.format, Color.unformat, Color.sequence.
  rewrite bytes_roundtrip. simpl.
  destruct (IO.Write stream _ world) as [r1 w1].
  destruct (IO.Write stream p w1) as [r2 w2].
  destruct (IO.Write stream _ w2) as [r3 w3]. reflexivity.
Qed.

Lemma Write_cases (w : ConsoleLogWriter S) (p : list Byte.byte) (world : W) :
  ConsoleLogWriter_Write w p world =
    if checkLevel (Go.string_of_bytes p) Slog.LevelError
    then wrapped (outputStream w) "31" p world
    else if checkLevel (Go.string_of_bytes p) Slog.LevelWarn
    then wrapped (outputStream w) "33" p world
    else if checkLevel (Go.string_of_bytes p) Slog.LevelInfo
    then wrapped (outputStream w) "34" p world
    else IO.Write (outputStream w) p world.
Proof.
  unfold ConsoleLogWriter_Write.
  destruct (checkLevel _ Slog.LevelError).
  { now apply Fprint_wrapped. }
  destruct (checkLevel _ Slog.LevelWarn).
  { now apply Fprint_wrapped. }
  destruct (checkLevel _ Slog.LevelInfo).
  { now apply Fprint_wrapped. }
  now rewrite bytes_roundtrip.
Qed.

(** C2.  [Write] tests the line for Error, then Warning, then Info.  On
    the first match the whole line goes to the underlying stream between
    the escape sequence of the colour (31 red, 33 yellow, 34 blue) and the
    reset sequence, and [Write] returns the count and error of the write
    of the line; with no match the input bytes go to the stream as they
    are. *)
Theorem Write_colours_first_matching_level
    (w : ConsoleLogWriter S) (p : list Byte.byte) (world : W) :
  let line := Go.string_of_bytes p in
  ConsoleLogWriter_Write w p world =
    if checkLevel line Slog.LevelError then wrapped (outputStream w) "31" p world
    else if checkLevel line Slog.LevelWarn then wrapped (outputStream w) "33" p world
    else if checkLevel line Slog.LevelInfo then wrapped (outputStream w) "34" p world
    else IO.Write (outputStream w) p world.
Proof. intros line. apply Write_cases. Qed.

Lemma checkLevel_false_iff (log : string) (level : Slog.Level) :
  checkLevel log level = false <->
  ~ Substring (text_marker (Slog.String level)) log /\
  ~ Substring (json_marker (Slog.String level)) log.
Proof.
  unfold checkLevel. rewrite orb_false_iff, <- !Contains_spec.
  rewrite !not_true_iff_false. reflexivity.
Qed.

(** C5, as amended.  A line that contains none of the markers of Error,
    Warning and Info, in either encoding, is written to the underlying
    stream as it is, with no escape sequence. *)
Theorem Write_unmarked_line_uncoloured
    (w : ConsoleLogWriter S) (p : list Byte.byte) (world : W) :
  ~ Rendered.colourable (Go.string_of_bytes p) ->
  ConsoleLogWriter_Write w p world = IO.Write (outputStream w) p world.
Proof.
  intros Hno.
  assert (Hf : forall level name,
             Slog.String level = name ->
             name = "ERROR" \/ name = "WARN" \/ name = "INFO" ->
             checkLevel (Go.string_of_bytes p) level = false).
  { intros level name Hname Hin. apply checkLevel_false_iff. rewrite Hname.
    split; intros Hsub; apply Hno; exists name; auto. }
  rewrite Write_cases.
  rewrite (Hf Slog.LevelError "ERROR"), (Hf Slog.LevelWarn "WARN"),
    (Hf Slog.LevelInfo "INFO"); auto.
Qed.

End Write.

(** C8.  [NewConsoleLogHandler] writes to standard output when
    [LogToStdout] is set and to standard error otherwise, through a
    [ConsoleLogWriter] on that stream, and returns a JSON handler when
    [JSON] is set and a text handler otherwise; the handler receives
    [HandlerOptions] as given. *)
Theorem NewConsoleLogHandler_wiring
    (os : Os.Vars) (o : ConsoleLogWriterOpts) (rest : list ConsoleLogWriterOpts) :
  let writer :=
    {| outputStream := if LogToStdout o then Os.Stdout os else Os.Stderr os |} in
  NewConsoleLogHandler os (o :: rest) =
    if JSON o
    then Slog.JSONHandler {| Slog.json := true; Slog.opts := HandlerOptions o;
                             Slog.w := writer |}
    else Slog.TextHandler {| Slog.json := false; Slog.opts := HandlerOptions o;
                             Slog.w := writer |}.
Proof.
  unfold NewConsoleLogHandler, Slog.NewJSONHandler, Slog.NewTextHandler. simpl.
  destruct (JSON o); reflexivity.
Qed.

(** C10.  Without arguments [NewConsoleLogHandler] behaves as on the zero
    value of the options, a text handler on standard error with the zero
    handler options; with several arguments only the first one counts. *)
Theorem NewConsoleLogHandler_variadic (os : Os.Vars) :
  NewConsoleLogHandler os [] = NewConsoleLogHandler os [zero_ConsoleLogWriterOpts] /\
  NewConsoleLogHandler os [] =
    Slog.TextHandler {| Slog.json := false; Slog.opts := Slog.zero_HandlerOptions;
                        Slog.w := {| outputStream := Os.Stderr os |} |} /\
  forall (o o' : ConsoleLogWriterOpts) (rest : list ConsoleLogWriterOpts),
    NewConsoleLogHandler os (o :: o' :: rest) = NewConsoleLogHandler os [o].
Proof. repeat split. Qed.

End ConsoleFacts.

(* ================================================================= *)
(** ** Slices and loops over them *)

Module SliceFacts.
Import GoSlice Trace.

Section Memory.
Context {H W : Type}.
Implicit Types (m : memory (option H)) (s : slice) (hs : list H).

Lemma elems_length_le m s : (length (elems m s) <= len s)%nat.
Proof.
  unfold elems. destruct (ptr s) as [a|]; [|simpl; lia].
  destruct (m !! a) as [arr|]; [|simpl; lia].
  rewrite length_take. lia.
Qed.

(** Reading [s[i]] where the slice shows [x] at [i]. *)
Lemma index_elems m s (i : nat) (x : option H) (world : W) :
  elems m s !! i = Some x ->
  index s i (m, world) = Some (x, (m, world)).
Proof.
  intros Hx. pose proof (lookup_lt_Some _ _ _ Hx) as Hlt.
  pose proof (elems_length_le m s) as Hle.
  unfold index. replace (i <? len s)%nat with true
    by (symmetry; apply Nat.ltb_lt; lia).
  unfold elems in Hx. simpl. destruct (ptr s) as [a|]; [|discriminate].
  destruct (m !! a) as [arr|]; [|discriminate].
  apply lookup_take_Some in Hx as [Hx _]. rewrite lookup_drop in Hx.
  now rewrite Hx.
Qed.

(** Memory only grows by allocation: what a slice showed it still shows. *)
Lemma holds_app m (ext : memory (option H)) s hs :
  holds m s hs -> holds (m ++ ext)%list s hs.
Proof.
  unfold holds, elems. intros [He Hl]. split; [|exact Hl].
  destruct (ptr s) as [a|]; [|exact He].
  destruct (m !! a) as [arr|] eqn:Ha.
  - now rewrite (lookup_app_l_Some _ _ _ _ Ha).
  - destruct hs; [|discriminate]. simpl in Hl. rewrite Hl.
    case_match; [apply take_0 | reflexivity].
Qed.

Lemma holds_nil m : holds m nil_slice [].
Proof. split; reflexivity. Qed.

Lemma owned_nil (k : nat) m : owned k m nil_slice.
Proof. split; reflexivity. Qed.

Lemma owned_elems_length (k : nat) m s :
  owned k m s -> length (elems m s) = len s.
Proof.
  unfold owned, elems. destruct (ptr s) as [a|].
  - intros (_ & Hoff & Hle & arr & Ha & Hlen). rewrite Ha, Hoff.
    rewrite length_take, drop_0. lia.
  - now intros [-> _].
Qed.

(** Appending to a slice built since the memory was [m0] leaves [m0] as
    it is: the element lands in an array allocated after [m0], in place
    or in a new one, and the slice shows one element more. *)
Lemma append_owned (growcap : nat -> nat -> nat) (m0 ext : memory (option H))
    s (x : option H) (world : W) :
  owned (length m0) (m0 ++ ext)%list s ->
  exists s' ext',
    append growcap None s x ((m0 ++ ext)%list, world)
      = Some (s', ((m0 ++ ext')%list, world)) /\
    owned (length m0) (m0 ++ ext')%list s' /\
    elems (m0 ++ ext')%list s' = (elems (m0 ++ ext)%list s ++ [x])%list /\
    len s' = S (len s).
Proof.
  intros Hown. pose proof (owned_elems_length _ _ _ Hown) as Hlen.
  unfold append. destruct (Nat.ltb_spec (len s) (cap s)) as [Hlt|Hge].
  - (* room left: stored in place *)
    unfold owned in Hown. unfold elems in Hlen |- *.
    destruct (ptr s) as [a|] eqn:Hp; [|lia].
    destruct Hown as (Hk & Hoff & Hle & arr & Ha & Harr).
    rewrite Ha in Hlen |- *. rewrite Hoff in *. simpl in *.
    pose proof (lookup_lt_Some _ _ _ Ha) as Halt.
    set (arr' := <[len s := x]> arr).
    exists {| ptr := Some a; off := 0; len := S (len s); cap := cap s |},
           (<[(a - length m0)%nat := arr']> ext).
    rewrite <- insert_app_r_alt by lia.
    assert (Ha' : <[a := arr']> (m0 ++ ext)%list !! a = Some arr')
      by now apply list_lookup_insert_eq.
    split; [reflexivity|]. split; [|split; [|reflexivity]].
    + unfold owned; simpl. repeat split; [lia | lia |].
      exists arr'. split; [exact Ha'|]. unfold arr'. now rewrite length_insert.
    + unfold elems; simpl. rewrite Ha'. rewrite !drop_0. unfold arr'.
      rewrite (take_S_r _ _ x) by (apply list_lookup_insert_eq; lia).
      now rewrite take_insert_ge by lia.
  - (* no room: moved to a new array *)
    assert (Hcap : cap s = len s).
    { unfold owned in Hown. destruct (ptr s); [|lia].
      destruct Hown as (_ & _ & Hle & _). lia. }
    set (newcap := Nat.max (S (len s)) (growcap (cap s) (S (len s)))).
    set (arr := (elems (m0 ++ ext)%list s
                 ++ x :: replicate (newcap - S (len s)) None)%list).
    exists {| ptr := Some (length (m0 ++ ext)%list); off := 0;
              len := S (len s); cap := newcap |}, (ext ++ [arr])%list.
    rewrite app_assoc.
    assert (Ha' : ((m0 ++ ext) ++ [arr])%list !! length (m0 ++ ext)%list = Some arr)
      by apply list_lookup_middle, eq_refl.
    split; [reflexivity|]. split; [|split; [|reflexivity]].
    + unfold owned; simpl. rewrite length_app. repeat split; [lia | lia |].
      exists arr. split; [rewrite <- length_app; exact Ha'|].
      unfold arr. rewrite length_app. simpl. rewrite length_replicate, Hlen. lia.
    + unfold elems at 1; simpl. rewrite Ha', drop_0. unfold arr.
      change (x :: replicate (newcap - S (len s)) None)
        with ([x] ++ replicate (newcap - S (len s)) None)%list.
      rewrite app_assoc. apply take_app_length'.
      rewrite length_app, Hlen. simpl. lia.
Qed.

End Memory.

Section Loops.
Context {H W : Type}.
Implicit Types (m : memory (option H)) (s : slice).

(** A [range] loop whose body keeps an invariant under which the slice
    shows the elements [es] runs the body over [es] in order. *)
Lemma for_range_from_list {A R : Type}
    (Inv : A -> memory (option H) * W -> Prop) s (es : list (option H))
    (body : A -> option H -> Go.Exec (memory (option H) * W) (A + R)) :
  length es = len s ->
  (forall acc st, Inv acc st -> elems (fst st) s = es) ->
  (forall acc x st acc' st',
      Inv acc st -> body acc x st = Some (inl acc', st') -> Inv acc' st') ->
  forall (n i : nat) acc st,
    Inv acc st -> (i + n)%nat = len s ->
    for_range_from s i n body acc st = loop_list body (drop i es) acc st.
Proof.
  intros Hlen Hes Hbody. induction n as [|n IH]; intros i acc st Hinv Hin.
  - rewrite drop_ge by lia. reflexivity.
  - destruct (lookup_lt_is_Some_2 es i ltac:(lia)) as [x Hx].
    rewrite (drop_S _ _ _ Hx). simpl. unfold Go.bind.
    destruct st as [m world].
    rewrite (index_elems m s i x world)
      by (rewrite <- Hx; f_equal; exact (Hes acc (m, world) Hinv)).
    destruct (body acc x (m, world)) as [[[acc'|r] st']|] eqn:Hb;
      [|reflexivity|reflexivity].
    apply IH; [|lia]. eapply Hbody; eassumption.
Qed.

Lemma for_range_list {A R : Type}
    (Inv : A -> memory (option H) * W -> Prop) s (es : list (option H))
    (body : A -> option H -> Go.Exec (memory (option H) * W) (A + R)) acc st :
  length es = len s ->
  (forall acc st, Inv acc st -> elems (fst st) s = es) ->
  (forall acc x st acc' st',
      Inv acc st -> body acc x st = Some (inl acc', st') -> Inv acc' st') ->
  Inv acc st ->
  for_range s body acc st = loop_list body es acc st.
Proof.
  intros Hlen Hes Hbody Hinv. unfold for_range.
  now rewrite (for_range_from_list Inv s es body Hlen Hes Hbody (len s) 0 acc st).
Qed.

End Loops.

End SliceFacts.

(* ================================================================= *)
(** ** [combined_handler.go] *)

Module CombinedFacts.
Import GoSlice Trace SliceFacts Loggy.

Section Refinement.
Context {W H : Type} {I : Slog.Handler W H}.
Implicit Types (m : memory (option H)) (h : CombinedHandler) (hs : list H).

Lemma call_Some {A : Type} (method : H -> Go.State W A) (c : H) m (world : W) :
  call method (Some c) (m, world)
  = Some (fst (method c world), (m, snd (method c world))).
Proof. unfold call. simpl. now destruct (method c world). Qed.

(** No method call touches the memory of the slices. *)
Lemma call_memory {A : Type} (method : H -> Go.State W A) (x : option H)
    (st st' : memory (option H) * W) (a : A) :
  call method x st = Some (a, st') -> fst st' = fst st.
Proof.
  unfold call. destruct x as [c|]; [|discriminate].
  destruct (method c (snd st)). now intros [= _ <-].
Qed.

(** [Enabled] runs the loop [enabled_children] over the children the
    slice shows, and leaves the memory alone. *)
Lemma Enabled_refines m h hs ctx level (world : W) :
  holds m (handlers h) hs ->
  CombinedHandler_Enabled h ctx level (m, world)
  = Some (fst (enabled_children ctx level hs world),
          (m, snd (enabled_children ctx level hs world))).
Proof.
  intros [He Hl]. unfold CombinedHandler_Enabled.
  match goal with |- context [for_range _ ?b _] => set (body := b) end.
  unfold Go.bind at 1.
  rewrite (for_range_list (fun _ st => fst st = m) (handlers h) (map Some hs));
    [ | now rewrite length_map | now intros _ st -> | | reflexivity ].
  2:{ intros [] x st [] st' Hm Hb. subst body. unfold Go.bind, Go.ret in Hb.
      destruct (call _ x st) as [[b st1]|] eqn:Hc; [|discriminate].
      apply call_memory in Hc. destruct b; inversion Hb; subst. exact Hc. }
  assert (Hloop : forall hs world,
             loop_list body (map Some hs) tt (m, world)
             = Some ((if fst (enabled_children ctx level hs world)
                      then inr true else inl tt),
                     (m, snd (enabled_children ctx level hs world)))).
  { clear. induction hs as [|c hs IH]; intros world; [reflexivity|].
    simpl. unfold Go.bind at 1. unfold body at 1. unfold Go.bind at 1.
    rewrite call_Some.
    destruct (Slog.Enabled c ctx level world) as [[] world']; simpl;
      [reflexivity|]. apply IH. }
  rewrite Hloop.
  now destruct (fst (enabled_children ctx level hs world)).
Qed.

(** [Handle] runs the loop [handle_children]. *)
Lemma Handle_refines m h hs ctx record (world : W) :
  holds m (handlers h) hs ->
  CombinedHandler_Handle h ctx record (m, world)
  = Some (fst (handle_children ctx record hs world),
          (m, snd (handle_children ctx record hs world))).
Proof.
  intros [He Hl]. unfold CombinedHandler_Handle.
  match goal with |- context [for_range _ ?b _] => set (body := b) end.
  unfold Go.bind at 1.
  rewrite (for_range_list (fun _ st => fst st = m) (handlers h) (map Some hs));
    [ | now rewrite length_map | now intros _ st -> | | reflexivity ].
  2:{ intros [] x st [] st' Hm Hb. subst body. unfold Go.bind, Go.ret in Hb.
      destruct (call _ x st) as [[b st1]|] eqn:Hc; [|discriminate].
      apply call_memory in Hc. destruct b; simpl in Hb.
      - destruct (call _ x st1) as [[e st2]|] eqn:Hc2; [|discriminate].
        apply call_memory in Hc2. destruct e; inversion Hb; subst.
        etransitivity; [exact Hc2 | exact Hc].
      - inversion Hb; subst. exact Hc. }
  assert (Hloop : forall hs world,
             loop_list body (map Some hs) tt (m, world)
             = Some (match fst (handle_children ctx record hs world) with
                     | Some e => inr (Some e)
                     | None => inl tt
                     end,
                     (m, snd (handle_children ctx record hs world)))).
  { clear. induction hs as [|c hs IH]; intros world; [reflexivity|].
    simpl. unfold Go.bind at 1. unfold body at 1. unfold Go.bind at 1.
    rewrite call_Some.
    destruct (Slog.Enabled c ctx (Slog.Level_ record) world) as [[] world1];
      simpl; [|apply IH].
    unfold Go.bind at 1. rewrite call_Some.
    destruct (Slog.Handle c ctx record world1) as [[e|] world2]; simpl;
      [reflexivity|]. apply IH. }
  rewrite Hloop.
  now destruct (fst (handle_children ctx record hs world)).
Qed.

End Refinement.

(** The loop of [WithAttrs] and of [WithGroup], for the method [method]
    called on each child. *)
Section Derive.
Context {W H : Type} {I : Slog.Handler W H}.
Variable growcap : nat -> nat -> nat.
Variable method : H -> Go.State W H.
Implicit Types (m : memory (option H)) (h : CombinedHandler) (hs : list H).

Local Abbreviation body := (derive_body growcap method).

Lemma derive_body_step m0 ext (nh : CombinedHandler) (c : H) (world : W) :
  owned (length m0) (m0 ++ ext)%list (handlers nh) ->
  exists s' ext',
    body nh (Some c) ((m0 ++ ext)%list, world)
      = Some (inl {| handlers := s' |},
              ((m0 ++ ext')%list, snd (method c world))) /\
    owned (length m0) (m0 ++ ext')%list s' /\
    elems (m0 ++ ext')%list s'
      = (elems (m0 ++ ext)%list (handlers nh) ++ [Some (fst (method c world))])%list /\
    len s' = S (len (handlers nh)).
Proof.
  intros Hown. unfold derive_body, Go.bind. rewrite call_Some.
  destruct (append_owned growcap m0 ext (handlers nh)
              (Some (fst (method c world))) (snd (method c world)) Hown)
    as (s' & ext' & Happ & Hown' & Hel & Hlen).
  exists s', ext'. rewrite Happ. auto.
Qed.

Lemma derive_loop m0 hs : forall (nh : CombinedHandler) (done : list H) ext (world : W),
  owned (length m0) (m0 ++ ext)%list (handlers nh) ->
  holds (m0 ++ ext)%list (handlers nh) done ->
  exists (nh' : CombinedHandler) ext',
    loop_list body (map Some hs) nh ((m0 ++ ext)%list, world)
      = Some (inl nh', ((m0 ++ ext')%list, snd (derive_children method hs world))) /\
    holds (m0 ++ ext')%list (handlers nh')
      (done ++ fst (derive_children method hs world))%list /\
    owned (length m0) (m0 ++ ext')%list (handlers nh').
Proof.
  induction hs as [|c hs IH]; intros nh done ext world Hown Hholds.
  - exists nh, ext. simpl. now rewrite app_nil_r.
  - destruct (derive_body_step m0 ext nh c world Hown)
      as (s' & ext' & Hb & Hown' & Hel & Hlen).
    destruct (IH {| handlers := s' |} (done ++ [fst (method c world)])%list
                ext' (snd (method c world)) Hown')
      as (nh' & ext'' & Hloop & Hh & Hown'').
    { destruct Hholds as [He Hl]. split; simpl.
      - rewrite Hel, He, map_app. reflexivity.
      - rewrite Hlen, Hl, length_app. simpl. lia. }
    exists nh', ext''. simpl. unfold Go.bind at 1. rewrite Hb. simpl in Hloop.
    rewrite Hloop. destruct (method c world) as [c' world1]; simpl in *.
    destruct (derive_children method hs world1) as [rest' world2]; simpl in *.
    split; [reflexivity|]. split; [|exact Hown''].
    now rewrite <- app_assoc in Hh.
Qed.

(** The loop builds, in memory allocated for it, a slice of the derived
    children, and what the memory held before is still there. *)
Lemma derive_refines m h hs (world : W) :
  holds m (handlers h) hs ->
  exists (h' : CombinedHandler) ext,
    (c <- for_range (handlers h) body {| handlers := nil_slice |} ;;
     match c with
     | inl newHandler => Go.ret newHandler
     | inr r => match r : Empty_set with end
     end)%exec (m, world)
      = Some (h', ((m ++ ext)%list, snd (derive_children method hs world))) /\
    holds (m ++ ext)%list (handlers h') (fst (derive_children method hs world)) /\
    owned (length m) (m ++ ext)%list (handlers h') /\
    holds (m ++ ext)%list (handlers h) hs.
Proof.
  intros Hh. unfold Go.bind at 1.
  rewrite (for_range_list
             (fun (nh : CombinedHandler) st =>
                exists ext, fst st = (m ++ ext)%list /\
                            owned (length m) (fst st) (handlers nh))
             (handlers h) (map Some hs)).
  - destruct (derive_loop m hs {| handlers := nil_slice |} [] [] world)
      as (h' & ext & Hloop & Hh' & Hown').
    { apply owned_nil. }
    { apply holds_nil. }
    rewrite app_nil_r in Hloop.
    exists h', ext. rewrite Hloop. split; [reflexivity|]. split; [exact Hh'|].
    split; [exact Hown'|]. now apply holds_app.
  - rewrite length_map. symmetry. apply Hh.
  - intros nh st (ext & -> & _). now apply holds_app.
  - intros nh x [m1 w1] nh' st' (ext & Hm & Hown) Hb. simpl in Hm. subst m1.
    destruct x as [c|]; [|discriminate].
    destruct (derive_body_step m ext nh c w1 Hown)
      as (s' & ext' & Hb' & Hown' & _).
    rewrite Hb' in Hb. inversion Hb; subst. exists ext'. auto.
  - exists []. simpl. rewrite app_nil_r. split; [reflexivity|apply owned_nil].
Qed.

End Derive.

(** What the probe logs for the three loops. *)
Section Traces.
Context {W H : Type} (I : Slog.Handler W H).
Implicit Types (hs : list H) (log : list (Call H)).

Lemma enabled_children_probe ctx level hs : forall (world : W) log,
  exists calls,
    enabled_children (I := probe I) ctx level hs (world, log)
    = (fst (enabled_children ctx level hs world),
       (snd (enabled_children ctx level hs world), (log ++ calls)%list)) /\
    if fst (enabled_children ctx level hs world)
    then exists pre c post,
           hs = (pre ++ c :: post)%list /\
           calls = (refusals ctx level pre ++ [CallEnabled c ctx level true])%list
    else calls = refusals ctx level hs.
Proof.
  induction hs as [|c hs IH]; intros world log.
  - exists []. simpl. now rewrite app_nil_r.
  - simpl. destruct (Slog.Enabled c ctx level world) as [[] world1] eqn:Hc; simpl.
    + exists [CallEnabled c ctx level true]. split; [reflexivity|].
      now exists [], c, hs.
    + destruct (IH world1 (log ++ [CallEnabled c ctx level false])%list)
        as (calls & Hrun & Hshape).
      exists (CallEnabled c ctx level false :: calls). rewrite Hrun.
      rewrite <- app_assoc. split; [reflexivity|].
      destruct (fst (enabled_children ctx level hs world1)).
      * destruct Hshape as (pre & c0 & post & -> & ->).
        now exists (c :: pre), c0, post.
      * now rewrite Hshape.
Qed.

Lemma handle_children_probe ctx record hs : forall (world : W) log,
  exists calls,
    handle_children (I := probe I) ctx record hs (world, log)
    = (fst (handle_children ctx record hs world),
       (snd (handle_children ctx record hs world), (log ++ calls)%list)) /\
    match fst (handle_children ctx record hs world) with
    | None => dispatched ctx record hs calls
    | Some e =>
        exists pre c post before,
          hs = (pre ++ c :: post)%list /\
          dispatched ctx record pre before /\
          calls = (before ++ [CallEnabled c ctx (Slog.Level_ record) true;
                              CallHandle c ctx record (Some e)])%list
    end.
Proof.
  induction hs as [|c hs IH]; intros world log.
  - exists []. simpl. rewrite app_nil_r. split; [reflexivity|constructor].
  - simpl.
    destruct (Slog.Enabled c ctx (Slog.Level_ record) world) as [[] world1]; simpl.
    + destruct (Slog.Handle c ctx record world1) as [[e|] world2]; simpl.
      * exists [CallEnabled c ctx (Slog.Level_ record) true;
                CallHandle c ctx record (Some e)].
        rewrite <- app_assoc. split; [reflexivity|].
        exists [], c, hs, []. repeat split. constructor.
      * destruct (IH world2
                    ((log ++ [CallEnabled c ctx (Slog.Level_ record) true])
                       ++ [CallHandle c ctx record None])%list)
          as (calls & Hrun & Hshape).
        exists (CallEnabled c ctx (Slog.Level_ record) true
                :: CallHandle c ctx record None :: calls).
        rewrite Hrun, <- !app_assoc. split; [reflexivity|].
        destruct (fst (handle_children ctx record hs world2)).
        -- destruct Hshape as (pre & c0 & post & before & -> & Hd & ->).
           exists (c :: pre), c0, post,
             (CallEnabled c ctx (Slog.Level_ record) true
              :: CallHandle c ctx record None :: before).
           repeat split. now constructor.
        -- now constructor.
    + destruct (IH world1 (log ++ [CallEnabled c ctx (Slog.Level_ record) false])%list)
        as (calls & Hrun & Hshape).
      exists (CallEnabled c ctx (Slog.Level_ record) false :: calls).
      rewrite Hrun, <- app_assoc. split; [reflexivity|].
      destruct (fst (handle_children ctx record hs world1)).
      * destruct Hshape as (pre & c0 & post & before & -> & Hd & ->).
        exists (c :: pre), c0, post,
          (CallEnabled c ctx (Slog.Level_ record) false :: before).
        repeat split. now constructor.
      * now constructor.
Qed.

Lemma derive_children_length (f : H -> Go.State W H) hs : forall world : W,
  length (fst (derive_children f hs world)) = length hs.
Proof.
  induction hs as [|c hs IH]; intros world; [reflexivity|]. simpl.
  destruct (f c world) as [c' world1]. specialize (IH world1).
  destruct (derive_children f hs world1). simpl in *. now rewrite IH.
Qed.

Lemma derive_children_probe (f : H -> Go.State W H) (mk : H -> H -> Call H) hs :
  forall (world : W) log,
    derive_children
      (fun c st => let (c', world') := f c (fst st) in
                   (c', (world', (snd st ++ [mk c c'])%list)))
      hs (world, log)
    = (fst (derive_children f hs world),
       (snd (derive_children f hs world),
        (log ++ zip_with mk hs (fst (derive_children f hs world)))%list)).
Proof.
  induction hs as [|c hs IH]; intros world log.
  - simpl. now rewrite app_nil_r.
  - simpl. destruct (f c world) as [c' world1]. rewrite IH.
    destruct (derive_children f hs world1) as [rest' world2]. simpl.
    now rewrite <- app_assoc.
Qed.

End Traces.

Section Claims.
Context {W H : Type} (I : Slog.Handler W H).
Variable growcap : nat -> nat -> nat.
Implicit Types (m : memory (option H)) (h : CombinedHandler) (hs : list H).

(** C4.  [Enabled] answers true exactly when a child answers true: it
    asks the children in the order of the slice and stops at the first
    one that is enabled.  Either it returns true, the calls made being
    the refusals of the children before some child [c] and then the call
    in which [c] answered true, or it returns false and every child was
    asked and refused.  The run with the calls logged and the plain run
    agree on the answer and on the store of the children. *)
Theorem Enabled_first_enabled_child m h hs ctx level (world : W) :
  holds m (handlers h) hs ->
  exists (enabled : bool) (world' : W) (calls : list (Call H)),
    CombinedHandler_Enabled (I := I) h ctx level (m, world)
      = Some (enabled, (m, world')) /\
    CombinedHandler_Enabled (I := probe I) h ctx level (m, (world, []))
      = Some (enabled, (m, (world', calls))) /\
    ((enabled = true /\
      exists pre c post,
        hs = (pre ++ c :: post)%list /\
        calls = (refusals ctx level pre ++ [CallEnabled c ctx level true])%list)
     \/ (enabled = false /\ calls = refusals ctx level hs)).
Proof.
  intros Hh.
  destruct (enabled_children_probe I ctx level hs world []) as (calls & Hrun & Hshape).
  exists (fst (enabled_children ctx level hs world)),
         (snd (enabled_children ctx level hs world)), calls.
  split; [now apply Enabled_refines|]. split.
  - rewrite (Enabled_refines (I := probe I) m h hs ctx level (world, []) Hh).
    now rewrite Hrun.
  - destruct (fst (enabled_children ctx level hs world)); [left|right]; auto.
Qed.

(** C1.  [Handle] goes through the children in the order of the slice.
    For each it first calls [Enabled] with the level of the record; a
    child that answers false is skipped, its [Handle] not called.  When
    the [Handle] of a child returns an error, that error is returned and
    no call is made on any later child; when no enabled child fails, nil
    is returned after all children were gone through. *)
Theorem Handle_stops_at_first_error m h hs ctx record (world : W) :
  holds m (handlers h) hs ->
  exists (err : option Go.error) (world' : W) (calls : list (Call H)),
    CombinedHandler_Handle (I := I) h ctx record (m, world)
      = Some (err, (m, world')) /\
    CombinedHandler_Handle (I := probe I) h ctx record (m, (world, []))
      = Some (err, (m, (world', calls))) /\
    match err with
    | None => dispatched ctx record hs calls
    | Some e =>
        exists pre c post before,
          hs = (pre ++ c :: post)%list /\
          dispatched ctx record pre before /\
          calls = (before ++ [CallEnabled c ctx (Slog.Level_ record) true;
                              CallHandle c ctx record (Some e)])%list
    end.
Proof.
  intros Hh.
  destruct (handle_children_probe I ctx record hs world []) as (calls & Hrun & Hshape).
  exists (fst (handle_children ctx record hs world)),
         (snd (handle_children ctx record hs world)), calls.
  split; [now apply Handle_refines|]. split; [|exact Hshape].
  rewrite (Handle_refines (I := probe I) m h hs ctx record (world, []) Hh).
  now rewrite Hrun.
Qed.

(** C9.  A call of [NewCombinedHandler] without arguments passes the nil
    slice; on the handler it returns, [Enabled] answers false and
    [Handle] returns nil for every context, level and record, and the
    store is left as it was: no call is made on any child. *)
Theorem empty_CombinedHandler_is_silent :
  (forall st : memory (option H) * W, variadic [] st = Some (nil_slice, st)) /\
  (forall ctx level (st : memory (option H) * W),
      CombinedHandler_Enabled (I := I) (NewCombinedHandler nil_slice) ctx level st
      = Some (false, st)) /\
  (forall ctx record (st : memory (option H) * W),
      CombinedHandler_Handle (I := I) (NewCombinedHandler nil_slice) ctx record st
      = Some (None, st)) /\
  (forall ctx level record (st : memory (option H) * (W * list (Call H))),
      CombinedHandler_Enabled (I := probe I) (NewCombinedHandler nil_slice) ctx level st
      = Some (false, st) /\
      CombinedHandler_Handle (I := probe I) (NewCombinedHandler nil_slice) ctx record st
      = Some (None, st)).
Proof.
  split; [now intros [m w]|].
  split; [reflexivity|]. split; [reflexivity|]. split; reflexivity.
Qed.

(** C6.  With a non-empty attribute list (a non-empty group name),
    [WithAttrs] ([WithGroup]) calls that method once on every child, in
    the order of the slice, and returns a new handler, over an array of
    its own, whose slice shows the results of these calls, as many and
    in the same order; the memory there was is untouched and the slice
    of the receiver shows the same children as before. *)
Theorem With_derives_every_child m h hs (world : W)
    (attrs : list Slog.Attr) (name : string) :
  holds m (handlers h) hs ->
  attrs <> [] ->
  name <> "" ->
  (exists (hs' : list H) (world' : W),
     length hs' = length hs /\
     derived m h hs
       (CombinedHandler_WithAttrs (I := I) growcap h attrs (m, world))
       hs' world' /\
     derived m h hs
       (CombinedHandler_WithAttrs (I := probe I) growcap h attrs (m, (world, [])))
       hs' (world', zip_with (fun c c' => CallWithAttrs c attrs c') hs hs')) /\
  (exists (hs' : list H) (world' : W),
     length hs' = length hs /\
     derived m h hs
       (CombinedHandler_WithGroup (I := I) growcap h name (m, world))
       hs' world' /\
     derived m h hs
       (CombinedHandler_WithGroup (I := probe I) growcap h name (m, (world, [])))
       hs' (world', zip_with (fun c c' => CallWithGroup c name c') hs hs')).
Proof.
  intros Hh Hattrs Hname. split.
  - set (f := fun c : H => Slog.WithAttrs (Handler := I) c attrs).
    exists (fst (derive_children f hs world)), (snd (derive_children f hs world)).
    split; [apply derive_children_length|].
    unfold CombinedHandler_WithAttrs.
    destruct attrs as [|a attrs]; [congruence|]. simpl length. simpl Nat.eqb. cbv iota.
    split.
    + destruct (derive_refines growcap f m h hs world Hh) as (h' & ext & Hrun & H1 & H2 & H3).
      now exists h', ext.
    + destruct (derive_refines growcap
                  (fun c : H => Slog.WithAttrs (Handler := probe I) c (a :: attrs))
                  m h hs (world, []) Hh) as (h' & ext & Hrun & H1 & H2 & H3).
      pose proof (derive_children_probe f
                    (fun c c' => CallWithAttrs c (a :: attrs) c') hs world []) as Hp.
      change (derive_children _ hs (world, []))
        with (derive_children
                (fun c : H => Slog.WithAttrs (Handler := probe I) c (a :: attrs))
                hs (world, [])) in Hp.
      rewrite Hp in Hrun, H1. simpl in Hrun, H1. now exists h', ext.
  - set (f := fun c : H => Slog.WithGroup (Handler := I) c name).
    exists (fst (derive_children f hs world)), (snd (derive_children f hs world)).
    split; [apply derive_children_length|].
    unfold CombinedHandler_WithGroup.
    destruct (String.eqb_spec name "") as [|_]; [congruence|].
    split.
    + destruct (derive_refines growcap f m h hs world Hh) as (h' & ext & Hrun & H1 & H2 & H3).
      now exists h', ext.
    + destruct (derive_refines growcap
                  (fun c : H => Slog.WithGroup (Handler := probe I) c name)
                  m h hs (world, []) Hh) as (h' & ext & Hrun & H1 & H2 & H3).
      pose proof (derive_children_probe f
                    (fun c c' => CallWithGroup c name c') hs world []) as Hp.
      change (derive_children _ hs (world, []))
        with (derive_children
                (fun c : H => Slog.WithGroup (Handler := probe I) c name)
                hs (world, [])) in Hp.
      rewrite Hp in Hrun, H1. simpl in Hrun, H1. now exists h', ext.
Qed.

(** C7.  [WithAttrs] on an empty attribute list and [WithGroup] on the
    empty name return the receiver itself, the same slice header, and
    leave the store as it was: nothing is allocated and no child is
    called. *)
Theorem With_nothing_returns_receiver h (st : memory (option H) * W) :
  CombinedHandler_WithAttrs (I := I) growcap h [] st = Some (h, st) /\
  CombinedHandler_WithGroup (I := I) growcap h "" st = Some (h, st).
Proof. split; reflexivity. Qed.

End Claims.

End CombinedFacts.

(* ================================================================= *)
(** ** The properties on concrete inputs *)

Module Examples.
Import GoStrings GoStringsFacts GoSlice Trace Loggy Rendered ConsoleFacts CombinedFacts.

(** A line is shown not to contain a marker by running the search. *)
Ltac no_marker :=
  intros (name & [-> | [-> | ->]] & [Hs | Hs]);
  apply Contains_spec in Hs; vm_compute in Hs; discriminate Hs.

(** The Info line of [console_test.go] goes out in blue, on the stream
    the writer was given. *)
Example Write_info_line_blue :
  let line := TextLine Slog.LevelInfo (quoted "this is a test log") in
  ConsoleLogWriter_Write ({| outputStream := 1%nat |} : ConsoleLogWriter Os.File)
    (Go.bytes_of_string line)
    [ {| Os.written := ""; Os.closed := false |};
      {| Os.written := ""; Os.closed := false |} ]
  = ((Z.of_nat (String.length line), None),
     [ {| Os.written := ""; Os.closed := false |};
       {| Os.written := Color.escape +++ "[34m" +++ line +++ Color.escape +++ "[0m";
          Os.closed := false |} ]).
Proof. vm_compute. reflexivity. Qed.

(** On a closed stream the error of the write of the line comes back. *)
Example Write_error_line_closed_stream :
  ConsoleLogWriter_Write ({| outputStream := 0%nat |} : ConsoleLogWriter Os.File)
    (Go.bytes_of_string (TextLine Slog.LevelError "x"))
    [ {| Os.written := ""; Os.closed := true |} ]
  = ((0, Some Os.ErrClosed), [ {| Os.written := ""; Os.closed := true |} ]).
Proof. vm_compute. reflexivity. Qed.

(** C5, as stated, fails: the text line of a record of level
    [LevelInfo+1], a level that is none of Error, Warning and Info, is
    [level=INFO+1 msg=hi]; it contains the marker of Info and is written
    in blue, not as it is. *)
Lemma custom_level_text_line_is_coloured :
  let level := Slog.LevelInfo + 1 in
  let line := TextLine level "hi" in
  let w : ConsoleLogWriter Os.File := {| outputStream := 0%nat |} in
  let files := [ {| Os.written := ""; Os.closed := false |} ] in
  (level <> Slog.LevelError /\ level <> Slog.LevelWarn /\ level <> Slog.LevelInfo) /\
  line = "level=INFO+1 msg=hi" +++ Go.newline /\
  checkLevel line Slog.LevelInfo = true /\
  ConsoleLogWriter_Write w (Go.bytes_of_string line) files
  = ((20, None),
     [ {| Os.written := Color.escape +++ "[34m" +++ line +++ Color.escape +++ "[0m";
          Os.closed := false |} ]) /\
  ConsoleLogWriter_Write w (Go.bytes_of_string line) files
  <> IO.Write (outputStream w) (Go.bytes_of_string line) files.
Proof.
  cbv zeta. repeat split; try (vm_compute; congruence); vm_compute; discriminate.
Qed.

(** The same for a Debug line whose message holds a marker. *)
Example debug_line_with_marker_in_message :
  let line := TextLine Slog.LevelDebug "level=ERROR" in
  let w : ConsoleLogWriter Os.File := {| outputStream := 0%nat |} in
  let files := [ {| Os.written := ""; Os.closed := false |} ] in
  snd (ConsoleLogWriter_Write w (Go.bytes_of_string line) files)
  = [ {| Os.written := Color.escape +++ "[31m" +++ line +++ Color.escape +++ "[0m";
         Os.closed := false |} ].
Proof. vm_compute. reflexivity. Qed.

(** The amended C5 on the Debug lines of [console_test.go]. *)
Lemma Write_unmarked_line_uncoloured_witness :
  let p := Go.bytes_of_string (TextLine Slog.LevelDebug (quoted "this is a test log")) in
  let w : ConsoleLogWriter Os.File := {| outputStream := 0%nat |} in
  let files := [ {| Os.written := ""; Os.closed := false |} ] in
  ~ colourable (Go.string_of_bytes p) /\
  ConsoleLogWriter_Write w p files = IO.Write (outputStream w) p files.
Proof.
  cbv zeta. split.
  - no_marker.
  - apply (Write_unmarked_line_uncoloured
             ({| outputStream := 0%nat |} : ConsoleLogWriter Os.File)).
    no_marker.
Defined.

Example json_debug_line_uncoloured :
  ~ colourable (JSONLine Slog.LevelDebug "this is a test log").
Proof. no_marker. Qed.

(** In the JSON encoding the name is closed by a quote, so that the line
    of level [LevelInfo+1] carries no marker of Info. *)
Example json_custom_level_line_uncoloured :
  ~ colourable (JSONLine (Slog.LevelInfo + 1) "hi").
Proof. no_marker. Qed.

(** The literal call [NewCombinedHandler(a, b)] builds what [combined]
    and [memory_of] describe. *)
Example variadic_call (a b : Sink.Sink) :
  variadic [Some a; Some b] (([] : memory (option Sink.Sink)), ([] : list string))
  = Some (handlers (Sink.combined [a; b]), (Sink.memory_of [a; b], [])).
Proof. reflexivity. Qed.

Lemma holds_combined (args : list Sink.Sink) :
  holds (Sink.memory_of args) (handlers (Sink.combined args)) args.
Proof.
  split; [|reflexivity]. unfold elems. simpl.
  rewrite drop_0. apply take_ge. now rewrite length_map.
Qed.

(** Children of thresholds Warn and Error are not enabled for Info;
    with one of threshold Info before them the handler is, and the two
    others are not asked. *)
Example Enabled_Warn_Error_at_Info :
  CombinedHandler_Enabled (I := probe Sink.Sink_Handler)
    (Sink.combined [Sink.warn; Sink.error]) [] Slog.LevelInfo
    (Sink.memory_of [Sink.warn; Sink.error], ([], []))
  = Some (false, (Sink.memory_of [Sink.warn; Sink.error],
                  ([], [CallEnabled Sink.warn [] Slog.LevelInfo false;
                        CallEnabled Sink.error [] Slog.LevelInfo false]))).
Proof. reflexivity. Qed.

Example Enabled_Info_Warn_Error_at_Info :
  CombinedHandler_Enabled (I := probe Sink.Sink_Handler)
    (Sink.combined [Sink.info; Sink.warn; Sink.error]) [] Slog.LevelInfo
    (Sink.memory_of [Sink.info; Sink.warn; Sink.error], ([], []))
  = Some (true, (Sink.memory_of [Sink.info; Sink.warn; Sink.error],
                 ([], [CallEnabled Sink.info [] Slog.LevelInfo true]))).
Proof. reflexivity. Qed.

Lemma Enabled_first_enabled_child_witness :
  let hs := [Sink.warn; Sink.error] in
  let m := Sink.memory_of hs in
  let h := Sink.combined hs in
  holds m (handlers h) hs /\
  exists (enabled : bool) (world' : list string) (calls : list (Call Sink.Sink)),
    CombinedHandler_Enabled (I := Sink.Sink_Handler) h [] Slog.LevelInfo (m, [])
      = Some (enabled, (m, world')) /\
    CombinedHandler_Enabled (I := probe Sink.Sink_Handler) h [] Slog.LevelInfo (m, ([], []))
      = Some (enabled, (m, (world', calls))) /\
    ((enabled = true /\
      exists pre c post,
        hs = (pre ++ c :: post)%list /\
        calls = (refusals [] Slog.LevelInfo pre
                 ++ [CallEnabled c [] Slog.LevelInfo true])%list)
     \/ (enabled = false /\ calls = refusals [] Slog.LevelInfo hs)).
Proof.
  cbv zeta. split.
  - split; reflexivity.
  - apply (Enabled_first_enabled_child Sink.Sink_Handler). split; reflexivity.
Defined.

(** Fail-fast: over a child that fails and a healthy one, [Handle]
    returns the error of the first and the second receives nothing. *)
Example Handle_broken_then_healthy :
  let hs := [Sink.broken; Sink.healthy] in
  let r := Sink.record_at Slog.LevelError "this is an error log" in
  CombinedHandler_Handle (I := probe Sink.Sink_Handler) (Sink.combined hs) [] r
    (Sink.memory_of hs, ([], []))
  = Some (Some "write failed",
          (Sink.memory_of hs,
           ([], [CallEnabled Sink.broken [] Slog.LevelError true;
                 CallHandle Sink.broken [] r (Some "write failed")]))).
Proof. reflexivity. Qed.

(** A warning goes to the children of thresholds Info and Warn, in that
    order, and not to the one of threshold Error. *)
Example Handle_warning_by_threshold :
  let hs := [Sink.info; Sink.error; Sink.warn] in
  let r := Sink.record_at Slog.LevelWarn "w" in
  CombinedHandler_Handle (I := Sink.Sink_Handler) (Sink.combined hs) [] r
    (Sink.memory_of hs, [])
  = Some (None, (Sink.memory_of hs, ["info: w"; "warn: w"])).
Proof. reflexivity. Qed.

Lemma Handle_stops_at_first_error_witness :
  let hs := [Sink.broken; Sink.healthy] in
  let m := Sink.memory_of hs in
  let h := Sink.combined hs in
  let record := Sink.record_at Slog.LevelError "this is an error log" in
  holds m (handlers h) hs /\
  exists (err : option Go.error) (world' : list string) (calls : list (Call Sink.Sink)),
    CombinedHandler_Handle (I := Sink.Sink_Handler) h [] record (m, [])
      = Some (err, (m, world')) /\
    CombinedHandler_Handle (I := probe Sink.Sink_Handler) h [] record (m, ([], []))
      = Some (err, (m, (world', calls))) /\
    match err with
    | None => dispatched [] record hs calls
    | Some e =>
        exists pre c post before,
          hs = (pre ++ c :: post)%list /\
          dispatched [] record pre before /\
          calls = (before ++ [CallEnabled c [] (Slog.Level_ record) true;
                              CallHandle c [] record (Some e)])%list
    end.
Proof.
  cbv zeta. split.
  - split; reflexivity.
  - apply (Handle_stops_at_first_error Sink.Sink_Handler). split; reflexivity.
Defined.

(** [WithAttrs] on two children: the new slice sits in a new array, the
    array of the receiver is as before. *)
Example WithAttrs_two_children :
  let hs := [Sink.warn; Sink.error] in
  let attrs := [ {| Slog.Key := "k"; Slog.Value_ := Slog.StringValue "v" |} ] in
  let derive (s : Sink.Sink) :=
    {| Sink.name := Sink.name s; Sink.threshold := Sink.threshold s;
       Sink.failure := None; Sink.bound := attrs; Sink.groups := [] |} in
  CombinedHandler_WithAttrs (I := Sink.Sink_Handler) Sink.doubling
    (Sink.combined hs) attrs (Sink.memory_of hs, [])
  = Some ({| handlers := {| ptr := Some 2%nat; off := 0; len := 2; cap := 2 |} |},
          ([ [Some Sink.warn; Some Sink.error];
             [Some (derive Sink.warn)];
             [Some (derive Sink.warn); Some (derive Sink.error)] ], [])).
Proof. reflexivity. Qed.

Lemma With_derives_every_child_witness :
  let hs := [Sink.warn; Sink.error] in
  let m := Sink.memory_of hs in
  let h := Sink.combined hs in
  let attrs := [ {| Slog.Key := "k"; Slog.Value_ := Slog.StringValue "v" |} ] in
  let name := "g" in
  (holds m (handlers h) hs /\ attrs <> [] /\ name <> "") /\
  (exists (hs' : list Sink.Sink) (world' : list string),
     length hs' = length hs /\
     derived m h hs
       (CombinedHandler_WithAttrs (I := Sink.Sink_Handler) Sink.doubling h attrs (m, []))
       hs' world' /\
     derived m h hs
       (CombinedHandler_WithAttrs (I := probe Sink.Sink_Handler) Sink.doubling h attrs
          (m, ([], [])))
       hs' (world', zip_with (fun c c' => CallWithAttrs c attrs c') hs hs')) /\
  (exists (hs' : list Sink.Sink) (world' : list string),
     length hs' = length hs /\
     derived m h hs
       (CombinedHandler_WithGroup (I := Sink.Sink_Handler) Sink.doubling h name (m, []))
       hs' world' /\
     derived m h hs
       (CombinedHandler_WithGroup (I := probe Sink.Sink_Handler) Sink.doubling h name
          (m, ([], [])))
       hs' (world', zip_with (fun c c' => CallWithGroup c name c') hs hs')).
Proof.
  cbv zeta. split.
  - split; [split; reflexivity | split; discriminate].
  - apply (With_derives_every_child Sink.Sink_Handler Sink.doubling);
      [split; reflexivity | discriminate | discriminate].
Defined.

End Examples.

(* ================================================================= *)
(** * Further properties *)

(** ** The level test and the console writer *)

Module ConsoleMore.
Import GoStrings GoStringsFacts Loggy Rendered ConsoleFacts.

Lemma string_roundtrip (s : string) :
  Go.string_of_bytes (Go.bytes_of_string s) = s.
Proof. apply string_of_list_byte_of_string. Qed.

Lemma Substring_context (sub s pre post : string) :
  Substring sub s -> Substring sub (pre +++ s +++ post).
Proof.
  intros (a & b & ->). exists (pre +++ a), (b +++ post).
  now rewrite !append_assoc.
Qed.

Lemma Substring_longer (sub suffix s : string) :
  Substring (sub +++ suffix) s -> Substring sub s.
Proof.
  intros (a & b & ->). exists a, (suffix +++ b). now rewrite !append_assoc.
Qed.

Lemma checkLevel_true_iff (log : string) (level : Slog.Level) :
  checkLevel log level = true <->
  Substring (text_marker (Slog.String level)) log \/
  Substring (json_marker (Slog.String level)) log.
Proof. unfold checkLevel. now rewrite orb_true_iff, !Contains_spec. Qed.

(** X1.  A line that [checkLevel] accepts for a level is still accepted
    with any text put before and after it: the answer does not depend on
    where in the line the marker stands. *)
Theorem checkLevel_survives_context (log pre post : string) (level : Slog.Level) :
  checkLevel log level = true ->
  checkLevel (pre +++ log +++ post) level = true.
Proof.
  rewrite !checkLevel_true_iff.
  intros [Hs | Hs]; [left | right]; now apply Substring_context.
Qed.

Lemma String_named_below (l : Slog.Level) :
  exists suffix : string,
    Slog.String l = Slog.String (named_below l) +++ suffix.
Proof.
  unfold Slog.String, named_below, Slog.str.
  destruct (Z.ltb_spec l Slog.LevelInfo); [|
    destruct (Z.ltb_spec l Slog.LevelWarn); [|
      destruct (Z.ltb_spec l Slog.LevelError)]]; simpl;
    match goal with
    | |- context [if ?v =? 0 then _ else _] =>
        destruct (v =? 0); [now exists "" | eexists; reflexivity]
    end.
Qed.

Lemma named_marker_within (log : string) (l : Slog.Level) :
  Substring (text_marker (Slog.String l)) log ->
  Substring (text_marker (Slog.String (named_below l))) log.
Proof.
  intros Hs. destruct (String_named_below l) as (suffix & Hname).
  unfold text_marker in *. rewrite Hname in Hs.
  apply (Substring_longer _ suffix). now rewrite append_assoc.
Qed.

Lemma named_below_error (l : Slog.Level) :
  Slog.LevelError <= l -> named_below l = Slog.LevelError.
Proof.
  intros Hl. unfold named_below, Slog.LevelInfo, Slog.LevelWarn, Slog.LevelError in *.
  destruct (Z.ltb_spec l 0); [lia|]. destruct (Z.ltb_spec l 4); [lia|].
  destruct (Z.ltb_spec l 8); [lia | reflexivity].
Qed.

(** X2.  In the text encoding a level that has no name of its own is
    taken for the named level below it: a line with the marker
    [level=NAME+n] passes [checkLevel] for the level called [NAME]. *)
Theorem checkLevel_takes_offset_level_for_named (log : string) (l : Slog.Level) :
  Substring ("level=" +++ Slog.String l) log ->
  checkLevel log (named_below l) = true.
Proof.
  intros Hs. apply checkLevel_true_iff. left. now apply named_marker_within.
Qed.

Section AnyStream.
Context {W S : Type} `{IO.Writer W S}.

(** X3.  The text line of a record of level Error or above, whatever its
    message, is written in red. *)
Theorem Write_error_and_above_red (w : ConsoleLogWriter S) (l : Slog.Level)
    (msg : string) (world : W) :
  Slog.LevelError <= l ->
  ConsoleLogWriter_Write w (Go.bytes_of_string (TextLine l msg)) world
  = wrapped (outputStream w) "31" (Go.bytes_of_string (TextLine l msg)) world.
Proof.
  intros Hl. rewrite Write_cases, string_roundtrip.
  replace (checkLevel (TextLine l msg) Slog.LevelError) with true; [reflexivity|].
  symmetry. apply checkLevel_true_iff. left.
  rewrite <- (named_below_error l Hl). apply named_marker_within.
  exists "", (" msg=" +++ msg +++ Go.newline). unfold TextLine, text_marker.
  now rewrite append_assoc.
Qed.

End AnyStream.

(** *** On the files of the operating system *)

Lemma File_Write_open (files : list Os.FileState) (f : Os.File)
    (st : Os.FileState) (b : list Byte.byte) :
  files !! f = Some st -> Os.closed st = false ->
  IO.Write f b files
  = ((Z.of_nat (length b), None),
     <[ f := {| Os.written := Os.written st +++ Go.string_of_bytes b;
                Os.closed := false |} ]> files).
Proof.
  intros Hf Hc. unfold IO.Write, Os.File_Writer, Os.File_Write.
  now rewrite Hf, Hc.
Qed.

Lemma File_Write_closed (files : list Os.FileState) (f : Os.File)
    (b : list Byte.byte) :
  match files !! f with Some st => Os.closed st = true | None => True end ->
  IO.Write f b files = ((0, Some Os.ErrClosed), files).
Proof.
  intros Hc. unfold IO.Write, Os.File_Writer, Os.File_Write.
  destruct (files !! f) as [st|]; [now rewrite Hc | reflexivity].
Qed.

Lemma wrapped_open (files : list Os.FileState) (f : Os.File)
    (st : Os.FileState) (code : string) (p : list Byte.byte) :
  files !! f = Some st -> Os.closed st = false ->
  wrapped f code p files
  = ((Z.of_nat (length p), None),
     <[ f := {| Os.written := Os.written st +++ in_colour code (Go.string_of_bytes p);
                Os.closed := false |} ]> files).
Proof.
  intros Hf Hc. pose proof (lookup_lt_Some _ _ _ Hf) as Hlt. unfold wrapped.
  rewrite (File_Write_open files f st _ Hf Hc).
  erewrite File_Write_open;
    [ | apply list_lookup_insert_eq; exact Hlt | reflexivity ].
  erewrite File_Write_open;
    [ | apply list_lookup_insert_eq; rewrite length_insert; exact Hlt | reflexivity ].
  rewrite !list_insert_insert_eq, !string_roundtrip. simpl Os.written.
  unfold in_colour, Color.escape. rewrite !append_assoc. simpl.
  now rewrite !append_assoc.
Qed.

Lemma wrapped_closed (files : list Os.FileState) (f : Os.File)
    (code : string) (p : list Byte.byte) :
  match files !! f with Some st => Os.closed st = true | None => True end ->
  wrapped f code p files = ((0, Some Os.ErrClosed), files).
Proof.
  intros Hc. unfold wrapped. now rewrite !(File_Write_closed files f _ Hc).
Qed.

Lemma Write_open_file (files : list Os.FileState) (f : Os.File)
    (st : Os.FileState) (p : list Byte.byte) :
  files !! f = Some st -> Os.closed st = false ->
  ConsoleLogWriter_Write {| outputStream := f |} p files
  = ((Z.of_nat (length p), None),
     <[ f := {| Os.written := Os.written st +++ coloured_form (Go.string_of_bytes p);
                Os.closed := false |} ]> files).
Proof.
  intros Hf Hc. rewrite Write_cases. unfold coloured_form. simpl outputStream.
  destruct (checkLevel _ Slog.LevelError); [now apply wrapped_open|].
  destruct (checkLevel _ Slog.LevelWarn); [now apply wrapped_open|].
  destruct (checkLevel _ Slog.LevelInfo); [now apply wrapped_open|].
  now apply File_Write_open.
Qed.

(** X4.  On an open file [Write] reports the length of its input and no
    error, also when it has added the colour sequences, and the file
    grows by the line in its coloured form and by nothing else; no other
    file changes. *)
Theorem Write_reports_input_length (files : list Os.FileState) (f : Os.File)
    (st : Os.FileState) (p : list Byte.byte) :
  files !! f = Some st -> Os.closed st = false ->
  ConsoleLogWriter_Write {| outputStream := f |} p files
  = ((Z.of_nat (length p), None),
     <[ f := {| Os.written := Os.written st +++ coloured_form (Go.string_of_bytes p);
                Os.closed := false |} ]> files).
Proof. apply Write_open_file. Qed.

(** X5.  On a closed file, or on a descriptor that is not open, [Write]
    returns the error of the stream with a count of zero, for a line it
    would colour as for one it would not, and writes nothing. *)
Theorem Write_returns_stream_error (files : list Os.FileState) (f : Os.File)
    (p : list Byte.byte) :
  match files !! f with Some st => Os.closed st = true | None => True end ->
  ConsoleLogWriter_Write {| outputStream := f |} p files
  = ((0, Some Os.ErrClosed), files).
Proof.
  intros Hc. rewrite Write_cases. simpl outputStream.
  destruct (checkLevel _ Slog.LevelError); [now apply wrapped_closed|].
  destruct (checkLevel _ Slog.LevelWarn); [now apply wrapped_closed|].
  destruct (checkLevel _ Slog.LevelInfo); [now apply wrapped_closed|].
  now apply File_Write_closed.
Qed.

(** X6.  Two calls of [Write] leave on the file the coloured form of the
    first line followed by that of the second: the colour of a line
    depends on that line alone, and nothing is kept from one call to the
    next. *)
Theorem Write_twice_concatenates (files : list Os.FileState) (f : Os.File)
    (st : Os.FileState) (p1 p2 : list Byte.byte) :
  files !! f = Some st -> Os.closed st = false ->
  let w : ConsoleLogWriter Os.File := {| outputStream := f |} in
  (r1 <- ConsoleLogWriter_Write w p1 ;;
   r2 <- ConsoleLogWriter_Write w p2 ;;
   Go.sret (r1, r2))%state files
  = (((Z.of_nat (length p1), None), (Z.of_nat (length p2), None)),
     <[ f := {| Os.written := Os.written st
                              +++ coloured_form (Go.string_of_bytes p1)
                              +++ coloured_form (Go.string_of_bytes p2);
                Os.closed := false |} ]> files).
Proof.
  intros Hf Hc w. pose proof (lookup_lt_Some _ _ _ Hf) as Hlt.
  unfold Go.sbind, Go.sret, w.
  rewrite (Write_open_file files f st p1 Hf Hc).
  erewrite Write_open_file;
    [ | apply list_lookup_insert_eq; exact Hlt | reflexivity ].
  rewrite list_insert_insert_eq. simpl Os.written. now rewrite append_assoc.
Qed.

(** X7.  [NewConsoleLogHandler] without [LogToStdout] does what the
    earlier [NewStderrLogHandler] did: for the same [JSON] and
    [HandlerOptions] the two build the same kind of handler with the
    same options, and the writer of the one, made while [os.Stderr] had
    the value it has when the other writes, writes the same. *)
Theorem NewConsoleLogHandler_extends_NewStderrLogHandler
    (os : Os.Vars) (o : StderrLogWriterOpts) :
  let o' := {| JSON := Stderr_JSON o; LogToStdout := false;
               HandlerOptions := Stderr_HandlerOptions o |} in
  exists (c : Slog.commonHandler StderrLogWriter)
         (c' : Slog.commonHandler (ConsoleLogWriter Os.File)),
    ((NewStderrLogHandler [o] = Slog.JSONHandler c /\
      NewConsoleLogHandler os [o'] = Slog.JSONHandler c') \/
     (NewStderrLogHandler [o] = Slog.TextHandler c /\
      NewConsoleLogHandler os [o'] = Slog.TextHandler c')) /\
    Slog.json c = Slog.json c' /\
    Slog.opts c = Slog.opts c' /\
    forall (p : list Byte.byte) (files : list Os.FileState),
      StderrLogWriter_Write os (Slog.w c) p files
      = ConsoleLogWriter_Write (Slog.w c') p files.
Proof.
  intros o'. unfold NewStderrLogHandler, NewConsoleLogHandler, o'. simpl.
  destruct (Stderr_JSON o); eexists; eexists;
    (split; [first [left; split; reflexivity | right; split; reflexivity]|]);
    repeat split.
Qed.

End ConsoleMore.

(** ** The fan-out handler *)

Module CombinedMore.
Import GoSlice Trace SliceFacts Loggy CombinedFacts.

Section More.
Context {W H : Type} (I : Slog.Handler W H).
Variable growcap : nat -> nat -> nat.
Implicit Types (m : memory (option H)) (h : CombinedHandler) (hs : list H).

(** X8.  A call [NewCombinedHandler(c1, ..., cn)] returns a handler whose
    slice shows the arguments, in the order they were given; the array
    it sits in is new, and the memory there was is untouched. *)
Theorem NewCombinedHandler_keeps_arguments m hs (world : W) :
  exists (s : slice) (ext : memory (option H)),
    variadic (map Some hs) (m, world) = Some (s, ((m ++ ext)%list, world)) /\
    holds (m ++ ext)%list (handlers (NewCombinedHandler s)) hs /\
    owned (length m) (m ++ ext)%list (handlers (NewCombinedHandler s)).
Proof.
  destruct hs as [|c hs'].
  - exists nil_slice, []. rewrite app_nil_r. repeat split.
  - set (args := map Some (c :: hs')).
    exists {| ptr := Some (length m); off := 0; len := length args; cap := length args |},
           [args].
    assert (Ha : (m ++ [args])%list !! length m = Some args)
      by apply list_lookup_middle, eq_refl.
    split; [reflexivity|]. split; [split|]; simpl.
    + unfold elems; simpl. rewrite Ha, drop_0. now apply take_ge.
    + unfold args. now rewrite length_map.
    + unfold owned; simpl. repeat split; [lia | lia |]. now exists args.
Qed.

Lemma enabled_children_pure (p : H -> bool) ctx level hs (world : W) :
  (forall c w, Slog.Enabled c ctx level w = (p c, w)) ->
  enabled_children ctx level hs world = (existsb p hs, world).
Proof.
  intros Hp. induction hs as [|c hs IH]; [reflexivity|]. simpl.
  rewrite Hp. destruct (p c); [reflexivity | exact IH].
Qed.

(** X9.  When the children answer [Enabled] without reading or changing
    their store, [Enabled] of the handler is the disjunction of their
    answers, and it leaves memory and store as they were. *)
Theorem Enabled_is_disjunction (p : H -> bool) m h hs ctx level (world : W) :
  holds m (handlers h) hs ->
  (forall c w, Slog.Enabled c ctx level w = (p c, w)) ->
  CombinedHandler_Enabled (I := I) h ctx level (m, world)
  = Some (existsb p hs, (m, world)).
Proof.
  intros Hh Hp. rewrite (Enabled_refines m h hs ctx level world Hh).
  now rewrite (enabled_children_pure p ctx level hs world Hp).
Qed.

Lemma handle_children_filter (p : H -> bool) ctx record hs : forall world : W,
  (forall c w, Slog.Enabled c ctx (Slog.Level_ record) w = (p c, w)) ->
  handle_children ctx record hs world
  = deliver ctx record (List.filter p hs) world.
Proof.
  intros world Hp. revert world. induction hs as [|c hs IH]; intros world;
    [reflexivity|]. simpl. rewrite Hp. destruct (p c); simpl; [|apply IH].
  destruct (Slog.Handle c ctx record world) as [[e|] world']; [reflexivity|].
  apply IH.
Qed.

(** X10.  With such children, [Handle] hands the record to exactly the
    children that are enabled for its level, in the order of the slice,
    and stops at the first of them that fails. *)
Theorem Handle_delivers_to_enabled_children (p : H -> bool) m h hs ctx record
    (world : W) :
  holds m (handlers h) hs ->
  (forall c w, Slog.Enabled c ctx (Slog.Level_ record) w = (p c, w)) ->
  CombinedHandler_Handle (I := I) h ctx record (m, world)
  = Some (fst (deliver ctx record (List.filter p hs) world),
          (m, snd (deliver ctx record (List.filter p hs) world))).
Proof.
  intros Hh Hp. rewrite (Handle_refines m h hs ctx record world Hh).
  now rewrite (handle_children_filter p ctx record hs world Hp).
Qed.

Lemma handle_children_refused ctx record hs : forall (world : W) (log : list (Call H)),
  (forall c w, In c hs -> fst (Slog.Enabled c ctx (Slog.Level_ record) w) = false) ->
  (forall c w, In c hs -> snd (Slog.Enabled c ctx (Slog.Level_ record) w) = w) ->
  handle_children (I := probe I) ctx record hs (world, log)
  = (None, (world, (log ++ refusals ctx (Slog.Level_ record) hs)%list)).
Proof.
  induction hs as [|c hs IH]; intros world log Hf Hw.
  - simpl. now rewrite app_nil_r.
  - simpl. specialize (Hf c world (or_introl eq_refl)) as Hfc.
    specialize (Hw c world (or_introl eq_refl)) as Hwc.
    destruct (Slog.Enabled c ctx (Slog.Level_ record) world) as [b w'].
    simpl in Hfc, Hwc. subst b w'. simpl.
    rewrite IH; [now rewrite <- app_assoc | |]; intros c' w' Hin;
      [apply Hf | apply Hw]; now right.
Qed.

(** X11.  When no child is enabled for the level of the record, [Handle]
    returns nil, calls the [Handle] of no child (each child was asked
    [Enabled] once and nothing else), and the store of the children is
    as it was. *)
Theorem Handle_without_enabled_child m h hs ctx record (world : W) :
  holds m (handlers h) hs ->
  (forall c w, In c hs -> Slog.Enabled c ctx (Slog.Level_ record) w = (false, w)) ->
  CombinedHandler_Handle (I := probe I) h ctx record (m, (world, []))
  = Some (None, (m, (world, refusals ctx (Slog.Level_ record) hs))).
Proof.
  intros Hh Hno.
  rewrite (Handle_refines (I := probe I) m h hs ctx record (world, []) Hh).
  rewrite handle_children_refused; [reflexivity | |]; intros c w Hin;
    now rewrite (Hno c w Hin).
Qed.

Lemma WithAttrs_run m h hs (attrs : list Slog.Attr) (world : W) :
  holds m (handlers h) hs -> attrs <> [] ->
  exists (h' : CombinedHandler) (ext : memory (option H)),
    CombinedHandler_WithAttrs (I := I) growcap h attrs (m, world)
      = Some (h', ((m ++ ext)%list,
                   snd (derive_children (fun c => Slog.WithAttrs c attrs) hs world))) /\
    holds (m ++ ext)%list (handlers h')
      (fst (derive_children (fun c => Slog.WithAttrs c attrs) hs world)) /\
    owned (length m) (m ++ ext)%list (handlers h') /\
    holds (m ++ ext)%list (handlers h) hs.
Proof.
  intros Hh Hne. unfold CombinedHandler_WithAttrs.
  destruct attrs as [|a attrs]; [congruence|]. simpl length. simpl Nat.eqb. cbv iota.
  exact (derive_refines growcap (fun c => Slog.WithAttrs c (a :: attrs)) m h hs world Hh).
Qed.

Lemma WithGroup_run m h hs (name : string) (world : W) :
  holds m (handlers h) hs -> name <> "" ->
  exists (h' : CombinedHandler) (ext : memory (option H)),
    CombinedHandler_WithGroup (I := I) growcap h name (m, world)
      = Some (h', ((m ++ ext)%list,
                   snd (derive_children (fun c => Slog.WithGroup c name) hs world))) /\
    holds (m ++ ext)%list (handlers h')
      (fst (derive_children (fun c => Slog.WithGroup c name) hs world)) /\
    owned (length m) (m ++ ext)%list (handlers h') /\
    holds (m ++ ext)%list (handlers h) hs.
Proof.
  intros Hh Hne. unfold CombinedHandler_WithGroup.
  destruct (String.eqb_spec name "") as [|_]; [congruence|].
  exact (derive_refines growcap (fun c => Slog.WithGroup c name) m h hs world Hh).
Qed.

(** X12.  Deriving a handler changes nothing for the receiver: after
    [WithAttrs] or [WithGroup], in the memory the call leaves, [Enabled]
    and [Handle] of the receiver give the answers, and have the effects
    on the children, that they had before. *)
Theorem receiver_works_as_before m h hs (attrs : list Slog.Attr) (name : string)
    (world0 world : W) ctx level record :
  holds m (handlers h) hs -> attrs <> [] -> name <> "" ->
  forall run : Go.Exec (memory (option H) * W) CombinedHandler,
    run = CombinedHandler_WithAttrs (I := I) growcap h attrs \/
    run = CombinedHandler_WithGroup (I := I) growcap h name ->
    exists h' m' world',
      run (m, world0) = Some (h', (m', world')) /\
      (exists b w1,
          CombinedHandler_Enabled (I := I) h ctx level (m, world) = Some (b, (m, w1)) /\
          CombinedHandler_Enabled (I := I) h ctx level (m', world) = Some (b, (m', w1))) /\
      (exists e w1,
          CombinedHandler_Handle (I := I) h ctx record (m, world) = Some (e, (m, w1)) /\
          CombinedHandler_Handle (I := I) h ctx record (m', world) = Some (e, (m', w1))).
Proof.
  intros Hh Ha Hn run Hrun.
  assert (Hex : exists h' ext world',
             run (m, world0) = Some (h', ((m ++ ext)%list, world')) /\
             holds (m ++ ext)%list (handlers h) hs).
  { destruct Hrun as [-> | ->].
    - destruct (WithAttrs_run m h hs attrs world0 Hh Ha) as (h' & ext & Hr & _ & _ & Hh').
      eauto.
    - destruct (WithGroup_run m h hs name world0 Hh Hn) as (h' & ext & Hr & _ & _ & Hh').
      eauto. }
  destruct Hex as (h' & ext & world' & Hr & Hh').
  exists h', (m ++ ext)%list, world'. split; [exact Hr|]. split.
  - exists (fst (enabled_children ctx level hs world)),
           (snd (enabled_children ctx level hs world)).
    split; now apply Enabled_refines.
  - exists (fst (handle_children ctx record hs world)),
           (snd (handle_children ctx record hs world)).
    split; now apply Handle_refines.
Qed.

(** X13.  [WithGroup] on the result of [WithAttrs]: the last handler
    shows the children of the receiver, each taken through [WithAttrs]
    and then through [WithGroup], and the two handlers before it still
    show their own children. *)
Theorem WithAttrs_then_WithGroup m h hs (attrs : list Slog.Attr) (name : string)
    (world : W) :
  holds m (handlers h) hs -> attrs <> [] -> name <> "" ->
  let r1 := derive_children (fun c => Slog.WithAttrs c attrs) hs world in
  let r2 := derive_children (fun c => Slog.WithGroup c name) (fst r1) (snd r1) in
  exists (h1 h2 : CombinedHandler) (m2 : memory (option H)),
    (h1 <- CombinedHandler_WithAttrs (I := I) growcap h attrs ;;
     h2 <- CombinedHandler_WithGroup (I := I) growcap h1 name ;;
     Go.ret (h1, h2))%exec (m, world)
    = Some ((h1, h2), (m2, snd r2)) /\
    holds m2 (handlers h2) (fst r2) /\
    holds m2 (handlers h1) (fst r1) /\
    holds m2 (handlers h) hs /\
    length (fst r2) = length hs.
Proof.
  intros Hh Ha Hn r1 r2.
  destruct (WithAttrs_run m h hs attrs world Hh Ha) as (h1 & ext1 & Hr1 & Hh1 & _ & Hh0).
  destruct (WithGroup_run (m ++ ext1)%list h1 (fst r1) name (snd r1) Hh1 Hn)
    as (h2 & ext2 & Hr2 & Hh2 & _ & Hh1').
  exists h1, h2, ((m ++ ext1) ++ ext2)%list.
  unfold Go.bind. rewrite Hr1. fold r1. rewrite Hr2. fold r2.
  split; [reflexivity|]. split; [exact Hh2|]. split; [exact Hh1'|].
  split; [now apply holds_app|].
  unfold r2, r1. now rewrite !derive_children_length.
Qed.

(** X14.  On a handler without children, [WithAttrs] with attributes and
    [WithGroup] with a name call nothing and allocate nothing; what they
    return is not the receiver but a handler over the nil slice. *)
Theorem With_on_childless_handler h (attrs : list Slog.Attr) (name : string)
    (st : memory (option H) * W) :
  len (handlers h) = 0%nat -> attrs <> [] -> name <> "" ->
  CombinedHandler_WithAttrs (I := I) growcap h attrs st
    = Some ({| handlers := nil_slice |}, st) /\
  CombinedHandler_WithGroup (I := I) growcap h name st
    = Some ({| handlers := nil_slice |}, st).
Proof.
  intros Hl Ha Hn. unfold CombinedHandler_WithAttrs, CombinedHandler_WithGroup.
  destruct attrs as [|a attrs]; [congruence|].
  destruct (String.eqb_spec name "") as [|_]; [congruence|].
  unfold for_range. rewrite Hl. split; reflexivity.
Qed.

Lemma map_insert {A B : Type} (f : A -> B) (l : list A) (i : nat) (x : A) :
  map f (<[i := x]> l) = <[i := f x]> (map f l).
Proof.
  revert i. induction l as [|y l IH]; intros [|i]; simpl; try reflexivity.
  now rewrite IH.
Qed.

(** A store through a slice: the slice shows the new element, and the
    slices over other arrays show what they showed. *)
Lemma assign_holds m (s : slice) hs (i : nat) (c : H) (world : W) :
  holds m s hs -> (i < length hs)%nat ->
  exists (a : nat) (m' : memory (option H)),
    ptr s = Some a /\ (a < length m)%nat /\
    assign s i (Some c) (m, world) = Some (tt, (m', world)) /\
    holds m' s (<[i := c]> hs) /\
    length m' = length m /\
    forall s2 : slice, ptr s2 <> Some a -> elems m' s2 = elems m s2.
Proof.
  intros [He Hl] Hi. unfold elems in He. unfold assign, holds, elems.
  destruct (ptr s) as [a|]; [|destruct hs; [simpl in Hi; lia | discriminate]].
  destruct (m !! a) as [arr|] eqn:Ha;
    [|destruct hs; [simpl in Hi; lia | discriminate]].
  pose proof (lookup_lt_Some _ _ _ Ha) as Halt.
  assert (Hlen : length (take (len s) (drop (off s) arr)) = length hs)
    by now rewrite He, length_map.
  rewrite length_take, length_drop in Hlen.
  exists a, (<[a := <[(off s + i)%nat := Some c]> arr]> m).
  simpl. rewrite Ha.
  replace (i <? len s)%nat with true by (symmetry; apply Nat.ltb_lt; lia).
  replace (off s + i <? length arr)%nat with true by (symmetry; apply Nat.ltb_lt; lia).
  split; [reflexivity|]. split; [exact Halt|]. split; [reflexivity|].
  split; [|split; [apply length_insert|]].
  - rewrite list_lookup_insert_eq by exact Halt. split.
    + rewrite drop_insert_ge by lia. rewrite take_insert_lt by lia.
      replace (off s + i - off s)%nat with i by lia.
      now rewrite He, map_insert.
    + now rewrite length_insert.
  - intros s2 Hne. destruct (ptr s2) as [a2|]; [|reflexivity].
    rewrite list_lookup_insert_ne; [reflexivity | congruence].
Qed.

(** X15.  [NewCombinedHandler] keeps the slice it is given and copies
    nothing: when the caller passed a slice of its own and later stores
    another handler into it, the handler built before dispatches to the
    new child. *)
Theorem NewCombinedHandler_shares_the_callers_array m (s : slice) hs (i : nat)
    (c : H) (world : W) ctx record :
  holds m s hs -> (i < length hs)%nat ->
  exists m' : memory (option H),
    assign s i (Some c) (m, world) = Some (tt, (m', world)) /\
    holds m' (handlers (NewCombinedHandler s)) (<[i := c]> hs) /\
    CombinedHandler_Handle (I := I) (NewCombinedHandler s) ctx record (m', world)
    = Some (fst (handle_children ctx record (<[i := c]> hs) world),
            (m', snd (handle_children ctx record (<[i := c]> hs) world))).
Proof.
  intros Hh Hi.
  destruct (assign_holds m s hs i c world Hh Hi) as (a & m' & _ & _ & Has & Hh' & _).
  exists m'. split; [exact Has|]. split; [exact Hh'|]. now apply Handle_refines.
Qed.

(** X16.  The handler [WithAttrs] returns shares no array with the
    receiver: a later store into the slice of the receiver changes the
    children of the receiver and leaves those of the derived handler. *)
Theorem derived_handler_has_its_own_array m h hs (attrs : list Slog.Attr)
    (i : nat) (c : H) (world : W) :
  holds m (handlers h) hs -> attrs <> [] -> (i < length hs)%nat ->
  exists (h' : CombinedHandler) (m' m'' : memory (option H)) (world' : W)
         (hs' : list H),
    CombinedHandler_WithAttrs (I := I) growcap h attrs (m, world)
      = Some (h', (m', world')) /\
    holds m' (handlers h') hs' /\
    assign (handlers h) i (Some c) (m', world') = Some (tt, (m'', world')) /\
    holds m'' (handlers h) (<[i := c]> hs) /\
    holds m'' (handlers h') hs'.
Proof.
  intros Hh Ha Hi.
  destruct (WithAttrs_run m h hs attrs world Hh Ha) as (h' & ext & Hr & Hh' & Hown & Hh0).
  destruct (assign_holds m (handlers h) hs i c world Hh Hi) as (a0 & _ & Hp0 & Hlt0 & _).
  destruct (assign_holds (m ++ ext)%list (handlers h) hs i c
              (snd (derive_children (fun c => Slog.WithAttrs c attrs) hs world)) Hh0 Hi)
    as (a & m'' & Hp & _ & Has & Hh'' & _ & Hother).
  exists h', (m ++ ext)%list, m'',
    (snd (derive_children (fun c => Slog.WithAttrs c attrs) hs world)),
    (fst (derive_children (fun c => Slog.WithAttrs c attrs) hs world)).
  split; [exact Hr|]. split; [exact Hh'|]. split; [exact Has|]. split; [exact Hh''|].
  destruct Hh' as [He Hl]. split; [|exact Hl]. rewrite <- He. apply Hother.
  rewrite Hp0 in Hp. injection Hp as <-.
  unfold owned in Hown. destruct (ptr (handlers h')) as [a'|]; [|discriminate].
  destruct Hown as (Hk & _). intros [= ->]. lia.
Qed.

End More.

End CombinedMore.

(** ** The further properties on concrete inputs *)

Module MoreExamples.
Import GoStrings GoStringsFacts GoSlice Trace Loggy Rendered.
Import ConsoleFacts ConsoleMore CombinedFacts CombinedMore.

Lemma checkLevel_survives_context_witness :
  checkLevel "level=WARN" Slog.LevelWarn = true /\
  checkLevel ("time=12:00 " +++ "level=WARN" +++ " msg=w") Slog.LevelWarn = true.
Proof.
  split; [reflexivity|].
  apply (checkLevel_survives_context "level=WARN" "time=12:00 " " msg=w").
  reflexivity.
Defined.

Lemma checkLevel_takes_offset_level_for_named_witness :
  Substring ("level=" +++ Slog.String 6) "level=WARN+2 msg=w" /\
  checkLevel "level=WARN+2 msg=w" (named_below 6) = true.
Proof.
  assert (Hs : Substring ("level=" +++ Slog.String 6) "level=WARN+2 msg=w")
    by (apply Contains_spec; reflexivity).
  split; [exact Hs|].
  exact (checkLevel_takes_offset_level_for_named "level=WARN+2 msg=w" 6 Hs).
Defined.

Lemma Write_error_and_above_red_witness :
  let w : ConsoleLogWriter Os.File := {| outputStream := 0%nat |} in
  let files := [ {| Os.written := ""; Os.closed := false |} ] in
  Slog.LevelError <= 9 /\
  ConsoleLogWriter_Write w (Go.bytes_of_string (TextLine 9 "m")) files
  = wrapped (outputStream w) "31" (Go.bytes_of_string (TextLine 9 "m")) files.
Proof.
  cbv zeta. split; [unfold Slog.LevelError; lia|].
  apply (Write_error_and_above_red
           ({| outputStream := 0%nat |} : ConsoleLogWriter Os.File)).
  unfold Slog.LevelError; lia.
Defined.

Lemma Write_reports_input_length_witness :
  let st := {| Os.written := "x"; Os.closed := false |} in
  let files := [ st ] in
  let p := Go.bytes_of_string (TextLine Slog.LevelWarn "w") in
  (files !! 0%nat = Some st /\ Os.closed st = false) /\
  ConsoleLogWriter_Write {| outputStream := 0%nat |} p files
  = ((Z.of_nat (length p), None),
     <[ 0%nat := {| Os.written := Os.written st +++ coloured_form (Go.string_of_bytes p);
                    Os.closed := false |} ]> files).
Proof.
  cbv zeta. split; [split; reflexivity|].
  apply (Write_reports_input_length _ 0%nat); reflexivity.
Defined.

Lemma Write_returns_stream_error_witness :
  let files := [ {| Os.written := "x"; Os.closed := true |} ] in
  let p := Go.bytes_of_string (TextLine Slog.LevelError "e") in
  match files !! 0%nat with Some st => Os.closed st = true | None => True end /\
  ConsoleLogWriter_Write {| outputStream := 0%nat |} p files
  = ((0, Some Os.ErrClosed), files).
Proof.
  cbv zeta. split; [reflexivity|].
  apply (Write_returns_stream_error _ 0%nat). reflexivity.
Defined.

Lemma Write_twice_concatenates_witness :
  let st := {| Os.written := ""; Os.closed := false |} in
  let files := [ st ] in
  let p1 := Go.bytes_of_string (TextLine Slog.LevelInfo "i") in
  let p2 := Go.bytes_of_string (TextLine Slog.LevelDebug "d") in
  let w : ConsoleLogWriter Os.File := {| outputStream := 0%nat |} in
  (files !! 0%nat = Some st /\ Os.closed st = false) /\
  (r1 <- ConsoleLogWriter_Write w p1 ;;
   r2 <- ConsoleLogWriter_Write w p2 ;;
   Go.sret (r1, r2))%state files
  = (((Z.of_nat (length p1), None), (Z.of_nat (length p2), None)),
     <[ 0%nat := {| Os.written := Os.written st
                                  +++ coloured_form (Go.string_of_bytes p1)
                                  +++ coloured_form (Go.string_of_bytes p2);
                    Os.closed := false |} ]> files).
Proof.
  cbv zeta. split; [split; reflexivity|].
  apply (Write_twice_concatenates _ 0%nat); reflexivity.
Defined.

Lemma Enabled_is_disjunction_witness :
  let hs := [Sink.warn; Sink.info] in
  let p := fun s : Sink.Sink => Sink.threshold s <=? Slog.LevelInfo in
  (holds (Sink.memory_of hs) (handlers (Sink.combined hs)) hs /\
   forall (c : Sink.Sink) (w : list string),
     Slog.Enabled c [] Slog.LevelInfo w = (p c, w)) /\
  CombinedHandler_Enabled (I := Sink.Sink_Handler) (Sink.combined hs) [] Slog.LevelInfo
    (Sink.memory_of hs, [])
  = Some (existsb p hs, (Sink.memory_of hs, [])).
Proof.
  cbv zeta. split; [split; [split; reflexivity | reflexivity]|].
  apply (Enabled_is_disjunction Sink.Sink_Handler); [split; reflexivity | reflexivity].
Defined.

Lemma Handle_delivers_to_enabled_children_witness :
  let hs := [Sink.info; Sink.error; Sink.warn] in
  let record := Sink.record_at Slog.LevelWarn "w" in
  let p := fun s : Sink.Sink => Sink.threshold s <=? Slog.LevelWarn in
  (holds (Sink.memory_of hs) (handlers (Sink.combined hs)) hs /\
   forall (c : Sink.Sink) (w : list string),
     Slog.Enabled c [] (Slog.Level_ record) w = (p c, w)) /\
  CombinedHandler_Handle (I := Sink.Sink_Handler) (Sink.combined hs) [] record
    (Sink.memory_of hs, [])
  = Some (fst (deliver [] record (List.filter p hs) []),
          (Sink.memory_of hs, snd (deliver [] record (List.filter p hs) []))).
Proof.
  cbv zeta. split; [split; [split; reflexivity | reflexivity]|].
  apply (Handle_delivers_to_enabled_children Sink.Sink_Handler);
    [split; reflexivity | reflexivity].
Defined.

Lemma sinks_refuse_info (c : Sink.Sink) (w : list string) :
  In c [Sink.warn; Sink.error] ->
  Slog.Enabled c [] Slog.LevelInfo w = (false, w).
Proof. intros [<- | [<- | []]]; reflexivity. Qed.

Lemma Handle_without_enabled_child_witness :
  let hs := [Sink.warn; Sink.error] in
  let record := Sink.record_at Slog.LevelInfo "i" in
  (holds (Sink.memory_of hs) (handlers (Sink.combined hs)) hs /\
   forall (c : Sink.Sink) (w : list string),
     In c hs -> Slog.Enabled c [] (Slog.Level_ record) w = (false, w)) /\
  CombinedHandler_Handle (I := probe Sink.Sink_Handler) (Sink.combined hs) [] record
    (Sink.memory_of hs, ([], []))
  = Some (None, (Sink.memory_of hs, ([], refusals [] (Slog.Level_ record) hs))).
Proof.
  cbv zeta. split; [split; [split; reflexivity | exact sinks_refuse_info]|].
  apply (Handle_without_enabled_child Sink.Sink_Handler);
    [split; reflexivity | exact sinks_refuse_info].
Defined.

Lemma receiver_works_as_before_witness :
  let hs := [Sink.warn; Sink.error] in
  let m := Sink.memory_of hs in
  let h := Sink.combined hs in
  let attrs := [ {| Slog.Key := "k"; Slog.Value_ := Slog.StringValue "v" |} ] in
  let record := Sink.record_at Slog.LevelError "e" in
  (holds m (handlers h) hs /\ attrs <> [] /\ "g" <> "") /\
  exists h' m' world',
    CombinedHandler_WithAttrs (I := Sink.Sink_Handler) Sink.doubling h attrs (m, [])
      = Some (h', (m', world')) /\
    (exists b w1,
        CombinedHandler_Enabled (I := Sink.Sink_Handler) h [] Slog.LevelError (m, [])
          = Some (b, (m, w1)) /\
        CombinedHandler_Enabled (I := Sink.Sink_Handler) h [] Slog.LevelError (m', [])
          = Some (b, (m', w1))) /\
    (exists e w1,
        CombinedHandler_Handle (I := Sink.Sink_Handler) h [] record (m, [])
          = Some (e, (m, w1)) /\
        CombinedHandler_Handle (I := Sink.Sink_Handler) h [] record (m', [])
          = Some (e, (m', w1))).
Proof.
  cbv zeta. split; [split; [split; reflexivity | split; discriminate]|].
  apply (receiver_works_as_before Sink.Sink_Handler Sink.doubling
           (Sink.memory_of [Sink.warn; Sink.error])
           (Sink.combined [Sink.warn; Sink.error]) [Sink.warn; Sink.error]
           [ {| Slog.Key := "k"; Slog.Value_ := Slog.StringValue "v" |} ] "g");
    [split; reflexivity | discriminate | discriminate | left; reflexivity].
Defined.

Lemma WithAttrs_then_WithGroup_witness :
  let hs := [Sink.warn; Sink.error] in
  let m := Sink.memory_of hs in
  let h := Sink.combined hs in
  let attrs := [ {| Slog.Key := "k"; Slog.Value_ := Slog.StringValue "v" |} ] in
  let r1 := derive_children (fun c => Slog.WithAttrs c attrs) hs ([] : list string) in
  let r2 := derive_children (fun c => Slog.WithGroup c "g") (fst r1) (snd r1) in
  (holds m (handlers h) hs /\ attrs <> [] /\ "g" <> "") /\
  exists (h1 h2 : CombinedHandler) (m2 : memory (option Sink.Sink)),
    (h1 <- CombinedHandler_WithAttrs (I := Sink.Sink_Handler) Sink.doubling h attrs ;;
     h2 <- CombinedHandler_WithGroup (I := Sink.Sink_Handler) Sink.doubling h1 "g" ;;
     Go.ret (h1, h2))%exec (m, [])
    = Some ((h1, h2), (m2, snd r2)) /\
    holds m2 (handlers h2) (fst r2) /\
    holds m2 (handlers h1) (fst r1) /\
    holds m2 (handlers h) hs /\
    length (fst r2) = length hs.
Proof.
  cbv zeta. split; [split; [split; reflexivity | split; discriminate]|].
  apply (WithAttrs_then_WithGroup Sink.Sink_Handler Sink.doubling);
    [split; reflexivity | discriminate | discriminate].
Defined.

Lemma With_on_childless_handler_witness :
  let h := NewCombinedHandler nil_slice in
  let attrs := [ {| Slog.Key := "k"; Slog.Value_ := Slog.StringValue "v" |} ] in
  let st : memory (option Sink.Sink) * list string := ([], []) in
  (len (handlers h) = 0%nat /\ attrs <> [] /\ "g" <> "") /\
  CombinedHandler_WithAttrs (I := Sink.Sink_Handler) Sink.doubling h attrs st
    = Some ({| handlers := nil_slice |}, st) /\
  CombinedHandler_WithGroup (I := Sink.Sink_Handler) Sink.doubling h "g" st
    = Some ({| handlers := nil_slice |}, st).
Proof.
  cbv zeta. split; [split; [reflexivity | split; discriminate]|].
  apply (With_on_childless_handler Sink.Sink_Handler Sink.doubling);
    [reflexivity | discriminate | discriminate].
Defined.

Lemma NewCombinedHandler_shares_the_callers_array_witness :
  let hs := [Sink.warn; Sink.error] in
  let m := Sink.memory_of hs in
  let s := handlers (Sink.combined hs) in
  let record := Sink.record_at Slog.LevelInfo "i" in
  (holds m s hs /\ (1 < length hs)%nat) /\
  exists m' : memory (option Sink.Sink),
    assign s 1 (Some Sink.info) (m, ([] : list string)) = Some (tt, (m', [])) /\
    holds m' (handlers (NewCombinedHandler s)) (<[1%nat := Sink.info]> hs) /\
    CombinedHandler_Handle (I := Sink.Sink_Handler) (NewCombinedHandler s) [] record (m', [])
    = Some (fst (handle_children [] record (<[1%nat := Sink.info]> hs) []),
            (m', snd (handle_children [] record (<[1%nat := Sink.info]> hs) []))).
Proof.
  cbv zeta. split; [split; [split; reflexivity | simpl; lia]|].
  apply (NewCombinedHandler_shares_the_callers_array Sink.Sink_Handler);
    [split; reflexivity | simpl; lia].
Defined.

Lemma derived_handler_has_its_own_array_witness :
  let hs := [Sink.warn; Sink.error] in
  let m := Sink.memory_of hs in
  let h := Sink.combined hs in
  let attrs := [ {| Slog.Key := "k"; Slog.Value_ := Slog.StringValue "v" |} ] in
  (holds m (handlers h) hs /\ attrs <> [] /\ (0 < length hs)%nat) /\
  exists (h' : CombinedHandler) (m' m'' : memory (option Sink.Sink))
         (world' : list string) (hs' : list Sink.Sink),
    CombinedHandler_WithAttrs (I := Sink.Sink_Handler) Sink.doubling h attrs (m, [])
      = Some (h', (m', world')) /\
    holds m' (handlers h') hs' /\
    assign (handlers h) 0 (Some Sink.info) (m', world') = Some (tt, (m'', world')) /\
    holds m'' (handlers h) (<[0%nat := Sink.info]> hs) /\
    holds m'' (handlers h') hs'.
Proof.
  cbv zeta. split; [split; [split; reflexivity | split; [discriminate | simpl; lia]]|].
  apply (derived_handler_has_its_own_array Sink.Sink_Handler Sink.doubling);
    [split; reflexivity | discriminate | simpl; lia].
Defined.

End MoreExamples.
